(** * EthicalAV: the rule-based decision core

    A shallow embedding of [ethics_engine.py] and [rules_adapter.py]:
    the three base rules, the label normalisation [_norm], the risk
    coercion [_riskify] and the refinement [decide_action]; and of the
    scripts around them: the labelling loop of [label_data.py], the rule
    lookup, the actors and the vehicle commands of [simulation.py], the
    rules of [ethics_logic_reporting.py] with the log of
    [run_simulation.py], and the specificity of [metrics_runner.py].

    Python values are modelled as follows.
    - [str] is [string]; [str.lower] and [str.strip] act on the ASCII range.
    - [float] is IEEE 754 binary64, given by [spec_float] at precision 53
      and maximal exponent 1024, so that every operation rounds as CPython's
      does.
    - [int] is [Z]; converting an [int] that is too large to a [float]
      raises [OverflowError].
    - the scenario [dict] is the record of its five documented keys; the four
      keys read with [data.get(key, default)] may be absent.
    - a NumPy [int64] is a [Z] whose operations wrap around. *)

From Stdlib Require Import ZArith Bool String Ascii List Lia SpecFloat.
Import ListNotations.

Local Open Scope Z_scope.
Local Open Scope string_scope.

(** ** Strings *)

Module PyStr.

Definition is_upper (c : ascii) : bool :=
  let n := nat_of_ascii c in (Nat.leb 65 n && Nat.leb n 90)%bool.

Definition lower_ascii (c : ascii) : ascii :=
  if is_upper c then ascii_of_nat (nat_of_ascii c + 32) else c.

(** [s.lower()] *)
Fixpoint lower (s : string) : string :=
  match s with
  | EmptyString => EmptyString
  | String c s' => String (lower_ascii c) (lower s')
  end.

(** The ASCII characters for which [str.isspace] holds. *)
Definition is_space (c : ascii) : bool :=
  let n := nat_of_ascii c in
  ((Nat.leb 9 n && Nat.leb n 13) || (Nat.leb 28 n && Nat.leb n 32))%bool.

Fixpoint lstrip (s : string) : string :=
  match s with
  | EmptyString => EmptyString
  | String c s' => if is_space c then lstrip s' else s
  end.

Fixpoint rstrip (s : string) : string :=
  match s with
  | EmptyString => EmptyString
  | String c s' =>
      match rstrip s' with
      | EmptyString => if is_space c then EmptyString else String c EmptyString
      | t => String c t
      end
  end.

(** [s.strip()] *)
Definition strip (s : string) : string := rstrip (lstrip s).

(** [s.startswith(p)] *)
Fixpoint startswith (s p : string) : bool :=
  match p with
  | EmptyString => true
  | String a p' =>
      match s with
      | EmptyString => false
      | String b s' => (Ascii.eqb a b && startswith s' p')%bool
      end
  end.

End PyStr.

(** ** Floats: binary64 *)

Module PyFloat.

Definition prec : Z := 53.
Definition emax : Z := 1024.

Definition add := SFadd prec emax.
Definition sub := SFsub prec emax.
Definition mul := SFmul prec emax.
Definition div := SFdiv prec emax.

(** [a < b], [a > b], [a >= b], [a <= b], [a == b] on floats; every
    comparison with a NaN is false. *)
Definition lt (a b : spec_float) : bool := SFltb a b.
Definition gt (a b : spec_float) : bool := SFltb b a.
Definition ge (a b : spec_float) : bool := SFleb b a.
Definition le (a b : spec_float) : bool := SFleb a b.
Definition eq (a b : spec_float) : bool := SFeqb a b.

(** The builtins [min(a, b)] and [max(a, b)]: the first argument is kept
    unless the second is strictly smaller (resp. strictly greater). *)
Definition min (a b : spec_float) : spec_float := if lt b a then b else a.
Definition max (a b : spec_float) : spec_float := if gt b a then b else a.

(** [abs(a)] *)
Definition abs (a : spec_float) : spec_float := SFabs a.

(** The float nearest to the integer [z] (ties to even); an infinity when
    [z] is out of range. *)
Definition of_Z (z : Z) : spec_float := binary_normalize prec emax z 0 false.

(** The float a decimal literal denotes: the one nearest to [n / d]. *)
Definition lit (n d : Z) : spec_float := div (of_Z n) (of_Z d).

Definition valid (f : spec_float) : bool := valid_binary prec emax f.

End PyFloat.

(** A Python [float]. *)
Definition float : Type := spec_float.

(** The float literals of [rules_adapter.py]. *)
Definition f0_0   : float := S754_zero false.
Definition f1_0   : float := Eval vm_compute in PyFloat.of_Z 1.
Definition f120_0 : float := Eval vm_compute in PyFloat.of_Z 120.
Definition f0_10  : float := Eval vm_compute in PyFloat.lit 10 100.
Definition f0_30  : float := Eval vm_compute in PyFloat.lit 30 100.
Definition f0_40  : float := Eval vm_compute in PyFloat.lit 40 100.
Definition f0_50  : float := Eval vm_compute in PyFloat.lit 50 100.
Definition f0_15  : float := Eval vm_compute in PyFloat.lit 15 100.
Definition f0_75  : float := Eval vm_compute in PyFloat.lit 75 100.
Definition f1_40  : float := Eval vm_compute in PyFloat.lit 140 100.

(** [2.0], a risk out of range. *)
Definition f2_0 : float := Eval vm_compute in PyFloat.of_Z 2.

(** ** Python values and exceptions *)

(** What a risk entry of the dictionary can hold, as far as [float(x)] tells
    values apart: a float (or a string that denotes one), an integer, or any
    object on which [float] raises ([None], a non-numeric string, a list). *)
Inductive pyval : Type :=
| VFloat (f : float)
| VInt (z : Z)
| VOther.

Inductive pyexn : Type :=
| OverflowError.

Inductive outcome : Type :=
| Returns (a : string)
| Raises (e : pyexn).

(** [float(z)] for an integer: [OverflowError] when [z] rounds out of range. *)
Definition float_of_int (z : Z) : option float :=
  match PyFloat.of_Z z with
  | S754_infinity _ => None
  | f => Some f
  end.

(** [float(x)]; [None] stands for a raised exception. *)
Definition py_float (x : pyval) : option float :=
  match x with
  | VFloat f => Some f
  | VInt z => float_of_int z
  | VOther => None
  end.

(** The scenario dictionary. *)
Record scenario : Type := mkScenario {
  name : string;
  child_present : option Z;
  left_risk : option pyval;
  right_risk : option pyval;
  speed_kph : option Z
}.

(** [data.get(key, default)] *)
Definition get {A : Type} (field : option A) (default : A) : A :=
  match field with
  | Some v => v
  | None => default
  end.

(** ** ethics_engine.py *)

Module ethics_engine.

Definition utilitarian_decision (data : scenario) : string :=
  if name data =? "car_vs_pedestrian" then "swerve_left"
  else if name data =? "car_vs_car" then "swerve_left"
  else if name data =? "pedestrian_vs_pedestrian" then "brake"
  else "straight".

Definition deontological_decision (data : scenario) : string :=
  if name data =? "car_vs_pedestrian" then "brake"
  else if name data =? "car_vs_car" then "brake"
  else if name data =? "pedestrian_vs_pedestrian" then "brake"
  else "straight".

Definition virtue_ethics_decision (data : scenario) : string :=
  if name data =? "car_vs_pedestrian" then "swerve_left"
  else if name data =? "car_vs_car" then "slow down"
  else if name data =? "pedestrian_vs_pedestrian" then "brake"
  else "straight".

End ethics_engine.

(** ** rules_adapter.py *)

(** [_norm(a)]; the argument is [None] or a string. *)
Definition _norm (a : option string) : string :=
  match a with
  | None => "brake"
  | Some a =>
      let a := PyStr.lower (PyStr.strip a) in
      if a =? "straight" then "hold_lane"
      else if a =? "slow down" then "slow_down"
      else a
  end.

(** [_riskify(x)]: the [except] clause turns every failure of [float(x)]
    into [0.0]. *)
Definition _riskify (x : pyval) : float :=
  match py_float x with
  | Some v => PyFloat.min (PyFloat.max v f0_0) f1_0
  | None => f0_0
  end.

Definition _base_decision (mode : string) (data : scenario) : string :=
  if mode =? "utilitarian" then
    _norm (Some (ethics_engine.utilitarian_decision data))
  else if mode =? "deontological" then
    _norm (Some (ethics_engine.deontological_decision data))
  else
    _norm (Some (ethics_engine.virtue_ethics_decision data)).

Definition HIGH_SPEED : Z := 45.
Definition VERY_HIGH_TOTAL : float := f1_40.
Definition HIGH_SIDE_RISK : float := f0_75.
Definition MEANINGFUL_DIFF : float := f0_15.

(** [(speed/120.0)*0.10]: the division converts [speed] to a float first. *)
Definition speed_penalty (speed : Z) : option float :=
  match float_of_int speed with
  | Some s => Some (PyFloat.mul (PyFloat.div s f120_0) f0_10)
  | None => None
  end.

(** Lines 54-55: the pair [(left_eff, right_eff)]. *)
Definition effective_risks (left_r right_r : float) (speed : Z)
  : option (float * float) :=
  match speed_penalty speed with
  | Some p =>
      Some (PyFloat.min f1_0 (PyFloat.add left_r p),
            PyFloat.min f1_0 (PyFloat.add right_r p))
  | None => None
  end.

(** Lines 71-75, one definition per [if]. *)
Definition veto_left (child : Z) (left_eff right_eff : float) (base : string)
  : string :=
  if ((child =? 1)%Z && PyFloat.gt left_eff right_eff
      && (base =? "swerve_left"))%bool
  then "brake" else base.

Definition veto_right (child : Z) (left_eff right_eff : float) (base : string)
  : string :=
  if ((child =? 1)%Z && PyFloat.gt right_eff left_eff
      && (base =? "swerve_right"))%bool
  then "brake" else base.

(** Lines 48-51: the features read from the dictionary. *)
Definition child (data : scenario) : Z := get (child_present data) 0.
Definition risk_of (field : option pyval) : float :=
  _riskify (get field (VFloat f0_0)).
Definition left_r (data : scenario) : float := risk_of (left_risk data).
Definition right_r (data : scenario) : float := risk_of (right_risk data).
Definition speed (data : scenario) : Z := get (speed_kph data) 0.

Definition decide_action (mode : string) (data : scenario) : outcome :=
  let mode := PyStr.lower mode in
  let base := _base_decision mode data in
  match effective_risks (left_r data) (right_r data) (speed data) with
  | None => Raises OverflowError
  | Some (left_eff, right_eff) =>
      let total_eff := PyFloat.add left_eff right_eff in
      let max_eff := PyFloat.max left_eff right_eff in
      let diff_eff := PyFloat.abs (PyFloat.sub left_eff right_eff) in
      if (PyFloat.ge total_eff VERY_HIGH_TOTAL
          || (speed data >=? HIGH_SPEED)%Z)%bool
      then Returns "brake"
      else
        let base := veto_left (child data) left_eff right_eff base in
        let base := veto_right (child data) left_eff right_eff base in
        if PyStr.startswith mode "util" then
          if (PyFloat.lt max_eff f0_30
              && PyFloat.lt diff_eff MEANINGFUL_DIFF)%bool
          then Returns "hold_lane"
          else if PyFloat.lt left_eff (PyFloat.sub right_eff MEANINGFUL_DIFF)
          then Returns "swerve_left"
          else if PyFloat.lt right_eff (PyFloat.sub left_eff MEANINGFUL_DIFF)
          then Returns "swerve_right"
          else if PyFloat.ge max_eff HIGH_SIDE_RISK
          then Returns "brake"
          else Returns base
        else if PyStr.startswith mode "deon" then
          if PyFloat.ge max_eff HIGH_SIDE_RISK
          then Returns "brake"
          else if (child data =? 1)%Z
          then Returns "brake"
          else if (PyFloat.ge diff_eff MEANINGFUL_DIFF
                   && PyFloat.lt max_eff HIGH_SIDE_RISK)%bool
          then Returns "hold_lane"
          else Returns (if base =? "brake" then "brake" else "hold_lane")
        else
          if ((child data =? 1)%Z || PyFloat.ge max_eff f0_40)%bool
          then Returns "slow_down"
          else if (PyFloat.ge diff_eff MEANINGFUL_DIFF
                   && PyFloat.lt max_eff f0_50)%bool
          then Returns (if PyFloat.lt left_eff right_eff
                        then "swerve_left" else "swerve_right")
          else Returns "hold_lane"
  end.

(** Whether the float a risk entry holds, if it holds one, is a binary64
    number in canonical form (every CPython float is). *)
Definition valid_risk (field : option pyval) : bool :=
  match field with
  | Some (VFloat f) => PyFloat.valid f
  | _ => true
  end.

(** ** Scenarios used below *)

(** The risk [n/100] as the dictionary holds it. *)
Definition pct (n : Z) : pyval := VFloat (PyFloat.lit n 100).

(** The scenario examples of the specification. *)
Definition ex1 : scenario :=
  mkScenario "car_vs_pedestrian" (Some 0) (Some (pct 30)) (Some (pct 60))
             (Some 30).

Definition ex4 : scenario :=
  mkScenario "car_vs_car" (Some 1) (Some (pct 80)) (Some (pct 20)) (Some 50).

Definition ex5 : scenario :=
  mkScenario "pedestrian_vs_pedestrian" (Some 0) (Some (pct 10)) (Some (pct 10))
             (Some 10).

(** A speed no float can hold. *)
Definition too_fast : scenario :=
  mkScenario "car_vs_car" (Some 0) (Some (pct 30)) (Some (pct 60))
             (Some (2 ^ 1024)).

(** Equal risks, low speed: the utilitarian refinement falls back on the
    base action. *)
Definition tie : scenario :=
  mkScenario "car_vs_car" (Some 0) (Some (pct 50)) (Some (pct 50)) (Some 0).

(** Two different risks that the penalty pushes above [1.0]. *)
Definition clamped : scenario :=
  mkScenario "car_vs_car" (Some 0) (Some (pct 97)) (Some (pct 99)) (Some 60).

(** ** The output vocabulary *)

Definition labels : list string :=
  ["brake"; "hold_lane"; "swerve_left"; "swerve_right"; "slow_down"].

(** The raw strings [_norm] is meant for. *)
Definition recognized : list string :=
  ["brake"; "hold_lane"; "swerve_left"; "swerve_right"; "slow_down";
   "straight"; "slow down"].

(** ** The base policy table of the specification *)

Module Spec.

Inductive ScenarioKind : Type :=
| CarVsPedestrian
| CarVsCar
| PedestrianVsPedestrian
| Unknown.

Inductive EthicalMode : Type :=
| Utilitarian
| Deontological
| Virtue.

Inductive ActionLabel : Type :=
| Brake
| HoldLane
| SwerveLeft
| SwerveRight
| SlowDown.

Definition base_table (m : EthicalMode) (k : ScenarioKind) : ActionLabel :=
  match k, m with
  | CarVsPedestrian, Utilitarian => SwerveLeft
  | CarVsPedestrian, Deontological => Brake
  | CarVsPedestrian, Virtue => SwerveLeft
  | CarVsCar, Utilitarian => SwerveLeft
  | CarVsCar, Deontological => Brake
  | CarVsCar, Virtue => SlowDown
  | PedestrianVsPedestrian, _ => Brake
  | Unknown, _ => HoldLane
  end.

(** How the three enumerations are spelled at the boundary. *)
Definition kind_of_name (s : string) : ScenarioKind :=
  if s =? "car_vs_pedestrian" then CarVsPedestrian
  else if s =? "car_vs_car" then CarVsCar
  else if s =? "pedestrian_vs_pedestrian" then PedestrianVsPedestrian
  else Unknown.

Definition mode_name (m : EthicalMode) : string :=
  match m with
  | Utilitarian => "utilitarian"
  | Deontological => "deontological"
  | Virtue => "virtue"
  end.

Definition label_name (a : ActionLabel) : string :=
  match a with
  | Brake => "brake"
  | HoldLane => "hold_lane"
  | SwerveLeft => "swerve_left"
  | SwerveRight => "swerve_right"
  | SlowDown => "slow_down"
  end.

End Spec.

(** ** Notions used to reason on binary rounding *)

(** What [k] right shifts of [m0] leave in a [shr_record]: the quotient, and
    the two bits that place the remainder with respect to one half. *)
Definition shifted (m0 k : Z) (mrs : shr_record) : Prop :=
  exists rem,
    m0 = shr_m mrs * 2 ^ k + rem /\ (0 <= rem < 2 ^ k) /\ (0 <= shr_m mrs) /\
    (shr_r mrs = true <-> 2 ^ k <= 2 * rem) /\
    (shr_s mrs = true <-> rem <> 0 /\ 2 * rem <> 2 ^ k).

(** The quotient alone, whatever the record the shifts start from. *)
Definition quotient (m0 k : Z) (mrs : shr_record) : Prop :=
  exists rem, m0 = shr_m mrs * 2 ^ k + rem /\ (0 <= rem < 2 ^ k) /\
              (0 <= shr_m mrs).

(** [K] is the integer nearest to [m0 / P], the even one on a tie. *)
Definition nearest_even (P m0 K : Z) : Prop :=
  (2 * K - 1) * P <= 2 * m0 <= (2 * K + 1) * P /\
  (2 * m0 = (2 * K + 1) * P -> Z.even K = true) /\
  (2 * m0 = (2 * K - 1) * P -> Z.even K = true).

(** The float made of the rounded mantissa [K] at exponent [E]: a mantissa of
    [prec + 1] bits is halved, an exponent out of range gives an infinity. *)
Definition pack (prec emax : Z) (s : bool) (K E : Z) : spec_float :=
  match K with
  | Zpos k =>
      if (K <? 2 ^ prec)%Z then
        if (E <=? emax - prec)%Z then S754_finite s k E else S754_infinity s
      else
        if (E + 1 <=? emax - prec)%Z then S754_finite s (Pos.div2 k) (E + 1)
        else S754_infinity s
  | _ => S754_zero s
  end.

(** Zero, a positive finite float or plus infinity. *)
Definition nonneg (f : spec_float) : bool :=
  match f with
  | S754_zero _ => true
  | S754_finite false _ _ => true
  | S754_infinity false => true
  | _ => false
  end.

(** Zero or a positive finite float. *)
Definition nonneg_finite (f : spec_float) : bool :=
  match f with
  | S754_zero _ => true
  | S754_finite false _ _ => true
  | _ => false
  end.

(** * The callers and the other scripts *)

(** ** label_data.py *)

(** What the labelling loop ends with: the column of actions, or the
    exception that stopped it. *)
Inductive labelling : Type :=
| Labelled (actions : list string)
| Aborted (e : pyexn).

(** Lines 44-50, for one mode: each row of the data frame is given to
    [teacher.decide_action] and the action is appended to [actions]; an
    exception ends the loop. [actions] is the list built so far. *)
Fixpoint label_rows (mode : string) (rows : list scenario)
         (actions : list string) : labelling :=
  match rows with
  | [] => Labelled actions
  | row :: rows' =>
      match decide_action mode row with
      | Returns a => label_rows mode rows' (actions ++ [a])%list
      | Raises e => Aborted e
      end
  end.

(** ** simulation.py *)

(** Lines 85-92: the rule is looked up in a dictionary keyed by the three
    mode names and applied to the scenario; [None] stands for the [KeyError]
    of any other key. *)
Definition simulation_decision (ethical_mode : string)
           (scenario_input : scenario) : option string :=
  if ethical_mode =? "utilitarian" then
    Some (ethics_engine.utilitarian_decision scenario_input)
  else if ethical_mode =? "deontological" then
    Some (ethics_engine.deontological_decision scenario_input)
  else if ethical_mode =? "virtue" then
    Some (ethics_engine.virtue_ethics_decision scenario_input)
  else None.

(** The branches of the control chain, lines 127-155. *)
Inductive manoeuvre : Type :=
| SteerLeft
| SteerRight
| MoveThenBrake
| SlowThenStop
| Straight.

Definition manoeuvre_of (decision : string) : manoeuvre :=
  if decision =? "swerve_left" then SteerLeft
  else if decision =? "swerve_right" then SteerRight
  else if decision =? "brake" then MoveThenBrake
  else if decision =? "slow down" then SlowThenStop
  else Straight.





(** The three fields of [carla.VehicleControl] the script sets. *)
Record VehicleControl : Type := mkControl {
  throttle : float;
  steer : float;
  brake : float
}.

(** What the control chain does to the vehicle and the clock. *)
Inductive command : Type :=
| apply_control (c : VehicleControl)
| sleep (seconds : pyval).

(** Lines 125-155. [d] is what [carla.VehicleControl()] builds; a call with
    keywords sets the named fields of it. The result is the commands issued
    inside the branches and the object [control] as the chain leaves it. *)
Definition control_chain (d : VehicleControl) (decision : string)
  : list command * VehicleControl :=
  if decision =? "swerve_left" then
    ([], mkControl f0_50 (SFopp f0_50) (brake d))
  else if decision =? "swerve_right" then
    ([], mkControl f0_50 f0_50 (brake d))
  else if decision =? "brake" then
    ([apply_control (mkControl f0_50 f0_0 (brake d));
      sleep (VFloat (PyFloat.lit 45 10))],
     mkControl f0_0 f0_0 f1_0)
  else if decision =? "slow down" then
    ([apply_control (mkControl f0_30 f0_0 (brake d));
      sleep (VInt 7);
      apply_control (mkControl f0_0 f0_0 f1_0)],
     d)
  else
    ([], mkControl f0_50 f0_0 (brake d)).

(** The object [control] that line 157 applies. *)
Definition final_control (d : VehicleControl) (decision : string)
  : VehicleControl :=
  snd (control_chain d decision).

(** Lines 125-157: every command, in order. *)
Definition vehicle_commands (d : VehicleControl) (decision : string)
  : list command :=
  (fst (control_chain d decision)
   ++ [apply_control (final_control d decision)])%list.

(** A control with nothing pressed and the wheel straight. *)
Definition released : VehicleControl := mkControl f0_0 f0_0 f0_0.

(** ** ethics_logic_reporting.py *)

Module ethics_logic_reporting.

Definition utilitarian_decision (scenario : scenario) : string :=
  if name scenario =? "car_vs_car" then "swerve" else "brake".

Definition deontological_decision (scenario : scenario) : string :=
  "brake".

Definition virtue_ethics_decision (scenario : scenario) : string :=
  if ((name scenario =? "car_vs_car")
      || (name scenario =? "pedestrian_vs_pedestrian"))%bool
  then "slow down" else "brake".

End ethics_logic_reporting.

(** ** run_simulation.py *)

(** A decision function. *)
Definition rule : Type := scenario -> string.

(** Lines 21-25: the dictionary of the rules, in insertion order. *)
Definition ethics : list (string * rule) :=
  [("utilitarian", ethics_logic_reporting.utilitarian_decision);
   ("deontological", ethics_logic_reporting.deontological_decision);
   ("virtue", ethics_logic_reporting.virtue_ethics_decision)].

(** Lines 38-44: the rows written after the header, one per scenario and
    mode: scenario name, mode name, decision. *)
Definition decision_log (scenarios : list scenario)
  : list (string * string * string) :=
  flat_map
    (fun scenario =>
       map (fun entry : string * rule =>
              (name scenario, fst entry, snd entry scenario))
           ethics)
    scenarios.

(** ** metrics_runner.py *)

Module metrics_runner.

(** A NumPy [int64]: the result of an operation wraps around. *)
Definition int64 (z : Z) : Z := ((z + 2 ^ 63) mod 2 ^ 64 - 2 ^ 63)%Z.

(** [a.sum()] of an [int64] array. *)
Definition sum (a : list Z) : Z := int64 (fold_right Z.add 0%Z a).

(** [cm[k, :]] and [cm[:, k]] of a matrix given by its rows. *)
Definition row (cm : list (list Z)) (k : nat) : list Z := nth k cm [].

Definition column (cm : list (list Z)) (k : nat) : list Z :=
  map (fun r => nth k r 0%Z) cm.

(** Lines 68-71, for the class of index [k] of the confusion matrix [cm]. *)
Definition TP (cm : list (list Z)) (k : nat) : Z := nth k (row cm k) 0%Z.

Definition FP (cm : list (list Z)) (k : nat) : Z :=
  int64 (sum (column cm k) - TP cm k).

Definition FN (cm : list (list Z)) (k : nat) : Z :=
  int64 (sum (row cm k) - TP cm k).

Definition TN (cm : list (list Z)) (k : nat) : Z :=
  int64 (sum (concat cm)
         - int64 (int64 (TP cm k + FP cm k) + FN cm k)).

(** Line 72: [TN / (TN + FP) if (TN + FP) > 0 else 0.0]; the division of two
    [int64] is the division of the two floats they convert to. *)
Definition spec_k (cm : list (list Z)) (k : nat) : float :=
  if (int64 (TN cm k + FP cm k) >? 0)%Z then
    PyFloat.div (PyFloat.of_Z (TN cm k))
                (PyFloat.of_Z (int64 (TN cm k + FP cm k)))
  else f0_0.

(** A confusion matrix: [n] rows of [n] counts, fewer than [2^63] samples
    in all. *)
Definition total (cm : list (list Z)) : Z := fold_right Z.add 0%Z (concat cm).

Definition confusion (cm : list (list Z)) : Prop :=
  Forall (fun r => length r = length cm) cm /\
  Forall (Forall (fun x => 0 <= x)%Z) cm /\
  (total cm < 2 ^ 63)%Z.

End metrics_runner.

(** ** Notions and scenarios used in the further properties *)



(** No white space in front. *)
Definition clean_head (s : string) : Prop :=
  match s with
  | EmptyString => True
  | String c _ => PyStr.is_space c = false
  end.

(** A child, the left side the riskier one, and a base action of
    ["swerve_left"]. *)
Definition child_left : scenario :=
  mkScenario "car_vs_car" (Some 1) (Some (pct 50)) (Some (pct 45)) (Some 0).


(** A low speed and a right side clearly the safer one. *)
Definition calm_right : scenario :=
  mkScenario "car_vs_car" (Some 0) (Some (pct 30)) (Some (pct 10)) (Some 0).


(** Two classes, fifteen samples. *)
Definition cm2 : list (list Z) := [[5; 1]; [2; 7]]%Z.

(** * The scenario examples of the specification *)

Example ex1_util : decide_action "utilitarian" ex1 = Returns "swerve_left".
Proof. vm_compute. reflexivity. Qed.

Example ex1_deon : decide_action "deontological" ex1 = Returns "hold_lane".
Proof. vm_compute. reflexivity. Qed.

Example ex1_virtue : decide_action "virtue" ex1 = Returns "slow_down".
Proof. vm_compute. reflexivity. Qed.

Example ex4_util : decide_action "utilitarian" ex4 = Returns "brake".
Proof. vm_compute. reflexivity. Qed.

Example ex5_util : decide_action "utilitarian" ex5 = Returns "hold_lane".
Proof. vm_compute. reflexivity. Qed.

(** The literals are the binary64 numbers CPython reads. *)
Example literal_0_10 : f0_10 = S754_finite false 7205759403792794 (-56).
Proof. reflexivity. Qed.

Example literal_1_40 : f1_40 = S754_finite false 6305039478318694 (-52).
Proof. reflexivity. Qed.

(** * Strings and base rules *)

Lemma startswith_util_not_deon (m : string) :
  PyStr.startswith m "util" = true -> PyStr.startswith m "deon" = false.
Proof.
  destruct m as [|c m]; [discriminate|].
  unfold PyStr.startswith; fold PyStr.startswith.
  destruct (Ascii.eqb_spec "u"%char c) as [<-|]; [reflexivity|discriminate].
Qed.

(** The raw base rules only ever produce four strings, and [_norm] sends
    them to four labels. *)
Lemma base_decision_cases (mode : string) (data : scenario) :
  _base_decision mode data = "swerve_left" \/
  _base_decision mode data = "brake" \/
  _base_decision mode data = "slow_down" \/
  _base_decision mode data = "hold_lane".
Proof.
  unfold _base_decision, ethics_engine.utilitarian_decision,
    ethics_engine.deontological_decision, ethics_engine.virtue_ethics_decision.
  destruct (mode =? "utilitarian"); [|destruct (mode =? "deontological")];
    destruct (name data =? "car_vs_pedestrian");
    [| destruct (name data =? "car_vs_car");
       [| destruct (name data =? "pedestrian_vs_pedestrian")] ..];
    first [ left; reflexivity
          | right; left; reflexivity
          | right; right; left; reflexivity
          | right; right; right; reflexivity ].
Qed.

Lemma base_decision_in_labels (mode : string) (data : scenario) :
  In (_base_decision mode data) labels.
Proof.
  destruct (base_decision_cases mode data) as [H|[H|[H|H]]]; rewrite H;
    simpl; tauto.
Qed.

Lemma veto_left_in_labels (c : Z) (le re : float) (b : string) :
  In b labels -> In (veto_left c le re b) labels.
Proof.
  unfold veto_left. intros H.
  destruct (_ && _ && _)%bool; [simpl; tauto | exact H].
Qed.

Lemma veto_right_in_labels (c : Z) (le re : float) (b : string) :
  In b labels -> In (veto_right c le re b) labels.
Proof.
  unfold veto_right. intros H.
  destruct (_ && _ && _)%bool; [simpl; tauto | exact H].
Qed.

(** * Rounding in [SpecFloat]

    Facts on [binary_round_aux], [binary_round] and [SFadd] at any precision:
    their results are in canonical form, and rounding to nearest is
    monotone. *)

Local Close Scope string_scope.

Section Rounding.

Variables prec emax : Z.
Hypothesis Hprec : 0 < prec.
Hypothesis Hemax : prec < emax.

Local Notation "'emin'" := (SpecFloat.emin prec emax).
Local Notation "'fexp'" := (SpecFloat.fexp prec emax).

(** *** Digits *)

Lemma digits2_pos_size (p : positive) : digits2_pos p = Pos.size p.
Proof. induction p; simpl; congruence. Qed.

Lemma digits2_pos_bounds (p : positive) :
  2 ^ (Zpos (digits2_pos p) - 1) <= Zpos p < 2 ^ Zpos (digits2_pos p).
Proof.
  rewrite digits2_pos_size.
  pose proof (Pos.size_gt p) as Hgt. pose proof (Pos.size_le p) as Hle.
  apply Pos2Z.pos_lt_pos in Hgt. apply Pos2Z.pos_le_pos in Hle.
  rewrite Pos2Z.inj_pow in Hgt, Hle.
  replace (Zpos (Pos.size p)) with (Zpos (Pos.size p) - 1 + 1) in Hle by lia.
  rewrite Z.pow_add_r, Z.pow_1_r in Hle by lia.
  change (Zpos p~0) with (2 * Zpos p) in Hle.
  split; [|exact Hgt].
  assert (X : forall a b, a * 2 <= 2 * b -> a <= b) by (intros; lia).
  apply X. exact Hle.
Qed.

Lemma pow2_lt_mono (a b : Z) : 0 <= a -> 2 ^ a < 2 ^ b -> a < b.
Proof.
  intros Ha H. destruct (Z.lt_ge_cases b 0) as [Hb|Hb].
  - rewrite (Z.pow_neg_r 2 b Hb) in H. pose proof (Z.pow_nonneg 2 a). lia.
  - apply (Z.pow_lt_mono_r_iff 2); lia.
Qed.

Lemma digits2_pos_unique (p : positive) (d : Z) :
  2 ^ (d - 1) <= Zpos p < 2 ^ d -> Zpos (digits2_pos p) = d.
Proof.
  intros [Hlo Hhi]. pose proof (digits2_pos_bounds p) as [Blo Bhi].
  set (k := Zpos (digits2_pos p)) in *. assert (0 < k) by (unfold k; lia).
  assert (Hd : 0 < d).
  { destruct (Z.le_gt_cases d 0) as [Hle|]; [exfalso|assumption].
    assert (2 ^ d <= 1).
    { destruct (Z.eq_dec d 0) as [->|]; [simpl; lia|].
      rewrite Z.pow_neg_r by lia. lia. }
    lia. }
  assert (k - 1 < d) by (apply pow2_lt_mono; lia).
  assert (d - 1 < k) by (apply pow2_lt_mono; lia).
  lia.
Qed.

(** *** Right shifts *)

Lemma iter_pos_invariant {A : Type} (f : A -> A) (P : Z -> A -> Prop) :
  (forall k x, 0 <= k -> P k x -> P (k + 1) (f x)) ->
  forall (p : positive) (k : Z) (x : A),
    0 <= k -> P k x -> P (k + Zpos p) (iter_pos f p x).
Proof.
  intros Hstep. induction p as [p IH|p IH|]; intros k x Hk Hx; simpl.
  - replace (k + Zpos p~1) with (k + 1 + Zpos p + Zpos p) by lia.
    apply IH; [lia|]. apply IH; [lia|]. apply Hstep; assumption.
  - replace (k + Zpos p~0) with (k + Zpos p + Zpos p) by lia.
    apply IH; [lia|]. apply IH; assumption.
  - apply Hstep; assumption.
Qed.

Lemma shifted_0 (m0 : Z) :
  0 <= m0 -> shifted m0 0 (Build_shr_record m0 false false).
Proof.
  intros H. exists 0. simpl. repeat split; try lia; try discriminate.
Qed.

Lemma shifted_step (m0 k : Z) (mrs : shr_record) :
  0 <= k -> shifted m0 k mrs -> shifted m0 (k + 1) (shr_1 mrs).
Proof.
  intros Hk (rem & Hm & Hrem & Hpos & Hr & Hs).
  unfold shifted. rewrite Z.pow_add_r, Z.pow_1_r by lia.
  pose proof (Z.pow_pos_nonneg 2 k) as HP.
  generalize dependent (2 ^ k). intros P Hm Hrem Hr Hs HP.
  assert (0 < P) by lia. clear HP.
  destruct mrs as [m r s]. cbn [shr_m shr_r shr_s] in *.
  assert (Hrs : (r || s)%bool = true <-> rem <> 0).
  { rewrite orb_true_iff, Hr, Hs. split; [intros [?|?]|intros ?]; lia. }
  destruct m as [|[p|p|]|p]; try lia; cbn [shr_1 shr_m shr_r shr_s].
  - exists rem. rewrite Hrs. repeat split; try lia; try discriminate.
  - exists (P + rem). rewrite Hrs. rewrite Pos2Z.inj_xI in Hm.
    repeat split; try lia; try discriminate.
  - exists rem. rewrite Hrs. rewrite Pos2Z.inj_xO in Hm.
    repeat split; try lia; try discriminate.
  - exists (P + rem). rewrite Hrs.
    repeat split; try lia; try discriminate.
Qed.

Lemma shifted_iter (m0 : Z) (p : positive) :
  0 <= m0 ->
  shifted m0 (Zpos p) (iter_pos shr_1 p (Build_shr_record m0 false false)).
Proof.
  intros H.
  apply (iter_pos_invariant shr_1 (shifted m0) (shifted_step m0) p 0);
    [lia | apply shifted_0; assumption].
Qed.

(** *** Rounding to nearest, ties to even *)

Lemma nearest_even_mono (P m1 m2 K1 K2 : Z) :
  0 < P -> nearest_even P m1 K1 -> nearest_even P m2 K2 ->
  m1 <= m2 -> K1 <= K2.
Proof.
  intros HP (B1 & T1 & T1') (B2 & T2 & T2') Hle.
  destruct (Z.le_gt_cases K1 K2) as [|Hgt]; [assumption|exfalso].
  assert (HK : K1 = K2 + 1) by nia.
  subst K1.
  assert (E2 : 2 * m2 = (2 * K2 + 1) * P) by nia.
  assert (E1 : 2 * m1 = (2 * (K2 + 1) - 1) * P) by nia.
  specialize (T2 E2). specialize (T1' E1).
  rewrite Z.even_add in T1'. rewrite T2 in T1'. discriminate.
Qed.

Lemma nearest_even_exact (P K : Z) : 0 < P -> nearest_even P (K * P) K.
Proof. intros HP. repeat split; nia. Qed.

Lemma nearest_even_scale (P Q m K : Z) :
  0 < Q -> nearest_even P m K -> nearest_even (P * Q) (m * Q) K.
Proof.
  intros HQ (B & T & T'). repeat split; try nia.
  - intros E. apply T. nia.
  - intros E. apply T'. nia.
Qed.

Lemma nearest_even_unique1 (m K : Z) : nearest_even 1 m K -> K = m.
Proof. intros (B & _ & _). lia. Qed.

(** Rounding the record left by [k] shifts. *)
Lemma round_shifted (m0 k : Z) (mrs : shr_record) :
  0 <= k -> shifted m0 k mrs ->
  let K := round_nearest_even (shr_m mrs) (loc_of_shr_record mrs) in
  nearest_even (2 ^ k) m0 K /\ shr_m mrs <= K <= shr_m mrs + 1.
Proof.
  intros Hk (rem & Hm & Hrem & Hpos & Hr & Hs).
  pose proof (Z.pow_pos_nonneg 2 k) as HP.
  generalize dependent (2 ^ k). intros P Hm Hrem Hr Hs HP.
  assert (0 < P) by lia. clear HP.
  destruct mrs as [m [|] [|]];
    cbn [shr_m shr_r shr_s loc_of_shr_record round_nearest_even] in *.
  - assert (P <= 2 * rem) by (apply Hr; reflexivity).
    assert (rem <> 0 /\ 2 * rem <> P) by (apply Hs; reflexivity).
    unfold nearest_even. repeat split; try nia.
  - assert (P <= 2 * rem) by (apply Hr; reflexivity).
    assert (2 * rem = P).
    { destruct (Z.eq_dec (2 * rem) P); [assumption|].
      assert (false = true) by (apply Hs; lia). discriminate. }
    destruct (Z.even m) eqn:Ev; unfold nearest_even; repeat split; try nia.
    + intros _. assumption.
    + intros _. rewrite Z.even_add, Ev. reflexivity.
  - assert (2 * rem < P).
    { destruct (Z.lt_ge_cases (2 * rem) P); [assumption|].
      assert (false = true) by (apply Hr; lia). discriminate. }
    unfold nearest_even. repeat split; try nia.
  - assert (rem = 0).
    { destruct (Z.eq_dec rem 0); [assumption|].
      assert (2 * rem < P).
      { destruct (Z.lt_ge_cases (2 * rem) P); [assumption|].
        assert (false = true) by (apply Hr; lia). discriminate. }
      assert (false = true) by (apply Hs; lia). discriminate. }
    unfold nearest_even. repeat split; try nia.
Qed.

Lemma quotient_step (m0 k : Z) (mrs : shr_record) :
  0 <= k -> quotient m0 k mrs -> quotient m0 (k + 1) (shr_1 mrs).
Proof.
  intros Hk (rem & Hm & Hrem & Hpos).
  unfold quotient. rewrite Z.pow_add_r, Z.pow_1_r by lia.
  pose proof (Z.pow_pos_nonneg 2 k) as HP.
  generalize dependent (2 ^ k). intros P Hm Hrem HP.
  assert (0 < P) by lia. clear HP.
  destruct mrs as [m r s]. cbn [shr_m] in *.
  destruct m as [|[p|p|]|p]; try lia; cbn [shr_1 shr_m].
  - exists rem. lia.
  - exists (P + rem). rewrite Pos2Z.inj_xI in Hm. lia.
  - exists rem. rewrite Pos2Z.inj_xO in Hm. lia.
  - exists (P + rem). lia.
Qed.

Lemma quotient_iter (m0 : Z) (l : location) (p : positive) :
  0 <= m0 ->
  quotient m0 (Zpos p) (iter_pos shr_1 p (shr_record_of_loc m0 l)).
Proof.
  intros H.
  apply (iter_pos_invariant shr_1 (quotient m0) (quotient_step m0) p 0);
    [lia|].
  exists 0. destruct l as [|[| |]]; simpl; lia.
Qed.

Lemma round_nearest_even_range (m : Z) (l : location) :
  m <= round_nearest_even m l <= m + 1.
Proof.
  destruct l as [|[| |]]; simpl; try lia. destruct (Z.even m); lia.
Qed.

(** *** The result of [binary_round_aux] *)

Lemma Zdigits2_nonneg (m : Z) : 0 <= Zdigits2 m.
Proof. destruct m; simpl; lia. Qed.

Lemma Zdigits2_upper (m : Z) : 0 <= m -> m < 2 ^ Zdigits2 m.
Proof.
  destruct m as [|p|p]; simpl; intros H; try lia.
  apply (digits2_pos_bounds p).
Qed.

Lemma Zdigits2_lower (m : Z) : 0 < m -> 2 ^ (Zdigits2 m - 1) <= m.
Proof.
  destruct m as [|p|p]; simpl; intros H; try lia.
  apply (digits2_pos_bounds p).
Qed.

Lemma fexp_ge_emin (e : Z) : emin <= fexp e.
Proof. unfold SpecFloat.fexp. lia. Qed.

Lemma pow2_le_mono (a b : Z) : 0 <= a <= b -> 2 ^ a <= 2 ^ b.
Proof. intros H. apply Z.pow_le_mono_r; lia. Qed.

Lemma pow2_pos (a : Z) : 0 <= a -> 0 < 2 ^ a.
Proof. intros H. apply Z.pow_pos_nonneg; lia. Qed.

Lemma pow2_succ (a : Z) : 0 <= a -> 2 ^ (a + 1) = 2 * 2 ^ a.
Proof. intros H. rewrite Z.pow_add_r, Z.pow_1_r by lia. lia. Qed.

(** The second [shr_fexp] of [binary_round_aux] and its final test. *)
Lemma renormalize (s : bool) (K E : Z) :
  0 <= K <= 2 ^ prec -> emin <= E ->
  (let '(mrs, e) := shr_fexp prec emax K E loc_Exact in
   match shr_m mrs with
   | Z0 => S754_zero s
   | Zpos m =>
       if e <=? emax - prec then S754_finite s m e else S754_infinity s
   | Zneg _ => S754_nan
   end) = pack prec emax s K E.
Proof.
  intros HK HE. unfold shr_fexp, pack.
  destruct K as [|k|k]; [| |lia].
  - cbn [Zdigits2 shr_record_of_loc]. unfold shr.
    destruct (fexp (0 + E) - E) eqn:En; [reflexivity| |reflexivity].
    unfold SpecFloat.fexp in En. lia.
  - cbn [Zdigits2 shr_record_of_loc].
    pose proof (digits2_pos_bounds k) as [Blo Bhi].
    set (d := Zpos (digits2_pos k)) in *.
    assert (Hd : 0 < d) by (unfold d; lia).
    destruct (Z.ltb_spec (Zpos k) (2 ^ prec)) as [Hlt|Hge].
    + assert (d <= prec).
      { assert (d - 1 < prec) by (apply pow2_lt_mono; lia). lia. }
      unfold shr.
      destruct (fexp (d + E) - E) eqn:En; [reflexivity| |reflexivity].
      unfold SpecFloat.fexp in En. lia.
    + assert (HKeq : Zpos k = 2 ^ prec) by lia.
      assert (d = prec + 1).
      { unfold d. apply digits2_pos_unique.
        replace (prec + 1 - 1) with prec by lia.
        rewrite pow2_succ by lia. pose proof (pow2_pos prec). lia. }
      assert (En : fexp (d + E) - E = 1) by (unfold SpecFloat.fexp; lia).
      rewrite En. unfold shr. cbn [iter_pos].
      destruct k as [p|p|]; cbn [shr_1 shr_m Pos.div2]; try reflexivity.
      exfalso. pose proof (pow2_succ (prec - 1)).
      replace (prec - 1 + 1) with prec in * by lia.
      pose proof (pow2_pos (prec - 1)). lia.
Qed.

Lemma shr_record_of_loc_m (m : Z) (l : location) :
  shr_m (shr_record_of_loc m l) = m.
Proof. destruct l as [|[| |]]; reflexivity. Qed.

Lemma loc_of_shr_record_of_loc (m : Z) (l : location) :
  loc_of_shr_record (shr_record_of_loc m l) = l.
Proof. destruct l as [|[| |]]; reflexivity. Qed.

(** [binary_round_aux] on a mantissa that needs no left shift. *)
Lemma binary_round_aux_pack (s : bool) (m e : Z) (l : location) :
  0 <= m -> e <= fexp (Zdigits2 m + e) ->
  exists K,
    binary_round_aux prec emax s m e l
    = pack prec emax s K (fexp (Zdigits2 m + e)) /\
    (0 <= K <= 2 ^ prec) /\
    (emin < fexp (Zdigits2 m + e) -> 2 ^ (prec - 1) <= K) /\
    (l = loc_Exact -> nearest_even (2 ^ (fexp (Zdigits2 m + e) - e)) m K).
Proof.
  intros Hm He.
  pose proof (Zdigits2_nonneg m) as Hd0.
  pose proof (Zdigits2_upper m Hm) as Hup.
  pose proof (Zdigits2_lower m) as Hlow.
  pose proof (fexp_ge_emin (Zdigits2 m + e)) as HE.
  set (d := Zdigits2 m) in *. set (E := fexp (d + e)) in *.
  assert (HEdef : E = Z.max (d + e - prec) emin) by reflexivity.
  unfold binary_round_aux. unfold shr_fexp at 1. fold d. fold E. unfold shr.
  destruct (E - e) as [|n|n] eqn:En; [| |lia].
  - (* no shift *)
    rewrite shr_record_of_loc_m, loc_of_shr_record_of_loc.
    pose proof (round_nearest_even_range m l) as HK.
    set (K := round_nearest_even m l) in *.
    assert (Hdp : d <= prec) by lia.
    pose proof (pow2_le_mono d prec).
    exists K.
    replace (shr_fexp prec emax K e loc_Exact)
      with (shr_fexp prec emax K E loc_Exact) by (f_equal; lia).
    split; [apply renormalize; lia|].
    split; [lia|]. split.
    + intros Hn. assert (d = prec) by lia.
      assert (0 < m).
      { destruct (Z.eq_dec m 0) as [->|]; [|lia].
        unfold d in *. simpl in *. lia. }
      specialize (Hlow H1). replace (d - 1) with (prec - 1) in Hlow by lia. lia.
    + intros ->. unfold K. cbn [round_nearest_even].
      change (2 ^ 0) with 1. pose proof (nearest_even_exact 1 m).
      replace (m * 1) with m in * by lia. apply H0. lia.
  - (* a shift by [n] *)
    pose proof (quotient_iter m l n Hm) as (rem & Hq & Hrem & Hpos).
    pose proof (round_nearest_even_range
                  (shr_m (iter_pos shr_1 n (shr_record_of_loc m l)))
                  (loc_of_shr_record
                     (iter_pos shr_1 n (shr_record_of_loc m l))))
      as HK.
    assert (Hex : l = loc_Exact ->
                  nearest_even (2 ^ Zpos n) m
                    (round_nearest_even
                       (shr_m (iter_pos shr_1 n (shr_record_of_loc m l)))
                       (loc_of_shr_record
                          (iter_pos shr_1 n (shr_record_of_loc m l))))).
    { intros ->. apply (round_shifted m (Zpos n)); [lia|].
      apply shifted_iter. assumption. }
    set (mrs := iter_pos shr_1 n (shr_record_of_loc m l)) in *.
    set (K := round_nearest_even (shr_m mrs) (loc_of_shr_record mrs)) in *.
    replace (e + Zpos n) with E by lia.
    assert (Hn : 0 < Zpos n) by lia.
    pose proof (pow2_pos (Zpos n)) as HP.
    assert (Hmid : shr_m mrs < 2 ^ prec /\
                   (emin < E -> 2 ^ (prec - 1) <= shr_m mrs)).
    { destruct (Z.lt_ge_cases (d + e - prec) emin) as [Hsub|Hnorm].
      - (* subnormal *)
        assert (E = emin) by lia. split; [|lia].
        assert (d <= Zpos n + (prec - 1)) by lia.
        pose proof (pow2_le_mono d (Zpos n + (prec - 1))) as Hle.
        rewrite Z.pow_add_r in Hle by lia.
        pose proof (pow2_le_mono (prec - 1) prec).
        pose proof (pow2_pos (prec - 1)).
        generalize dependent (2 ^ Zpos n). generalize dependent (2 ^ d).
        generalize dependent (2 ^ (prec - 1)). generalize dependent (2 ^ prec).
        intros. nia.
      - (* normal *)
        assert (Hdn : d = Zpos n + prec) by lia.
        assert (0 < m).
        { destruct (Z.eq_dec m 0) as [->|]; [|lia].
          unfold d in *. simpl in *. lia. }
        specialize (Hlow H). rewrite Hdn in Hup, Hlow.
        replace (Zpos n + prec - 1) with (Zpos n + (prec - 1)) in Hlow by lia.
        rewrite Z.pow_add_r in Hup, Hlow by lia.
        pose proof (pow2_succ (prec - 1)) as Hs.
        replace (prec - 1 + 1) with prec in Hs by lia.
        pose proof (pow2_pos (prec - 1)).
        generalize dependent (2 ^ Zpos n).
        generalize dependent (2 ^ (prec - 1)). generalize dependent (2 ^ prec).
        intros. split; [nia|]. intros _. nia. }
    exists K. split; [apply renormalize; lia|].
    split; [lia|]. split; [lia|].
    intros Hl. apply Hex. assumption.
Qed.

Lemma pack_valid (s : bool) (K E : Z) :
  0 <= K <= 2 ^ prec -> emin <= E -> (emin < E -> 2 ^ (prec - 1) <= K) ->
  valid_binary prec emax (pack prec emax s K E) = true.
Proof.
  intros HK HE Hn. unfold pack.
  destruct K as [|k|k]; [reflexivity| |reflexivity].
  pose proof (pow2_succ (prec - 1)) as Hs.
  replace (prec - 1 + 1) with prec in Hs by lia.
  pose proof (pow2_pos (prec - 1)) as Hp.
  destruct (Z.ltb_spec (Zpos k) (2 ^ prec)) as [Hlt|Hge].
  - destruct (Z.leb_spec E (emax - prec)) as [Hb|Hb]; [|reflexivity].
    cbn [valid_binary]. unfold bounded, canonical_mantissa.
    apply andb_true_iff. split; [|apply Z.leb_le; assumption].
    apply Z.eqb_eq.
    pose proof (digits2_pos_bounds k) as [Blo Bhi].
    set (d := Zpos (digits2_pos k)) in *.
    assert (0 < d) by (unfold d; lia).
    assert (d <= prec).
    { assert (d - 1 < prec) by (apply pow2_lt_mono; lia). lia. }
    destruct (Z.eq_dec E emin) as [->|Hne]; [unfold SpecFloat.fexp; lia|].
    assert (prec - 1 < d) by (apply pow2_lt_mono; lia).
    unfold SpecFloat.fexp. lia.
  - destruct (Z.leb_spec (E + 1) (emax - prec)) as [Hb|Hb]; [|reflexivity].
    cbn [valid_binary]. unfold bounded, canonical_mantissa.
    apply andb_true_iff. split; [|apply Z.leb_le; assumption].
    apply Z.eqb_eq.
    assert (HKeq : Zpos k = 2 ^ prec) by lia.
    assert (Hhalf : Zpos (Pos.div2 k) = 2 ^ (prec - 1)).
    { destruct k as [p|p|]; cbn [Pos.div2].
      - rewrite Pos2Z.inj_xI in HKeq. lia.
      - rewrite Pos2Z.inj_xO in HKeq. lia.
      - lia. }
    assert (Zpos (digits2_pos (Pos.div2 k)) = prec).
    { apply digits2_pos_unique. rewrite Hhalf. lia. }
    unfold SpecFloat.fexp. lia.
Qed.

(** *** Left shifts *)

Lemma iter_xO (m d : positive) : Zpos (Pos.iter xO m d) = Zpos m * 2 ^ Zpos d.
Proof.
  induction d as [|d IH] using Pos.peano_ind.
  - simpl. lia.
  - rewrite Pos.iter_succ, Pos2Z.inj_xO, IH, Pos2Z.inj_succ.
    unfold Z.succ. rewrite pow2_succ by lia. lia.
Qed.

Lemma shl_align_fst (m : positive) (e e' : Z) :
  e' <= e -> Zpos (fst (shl_align m e e')) = Zpos m * 2 ^ (e - e').
Proof.
  intros H. unfold shl_align.
  destruct (e' - e) as [|d|d] eqn:Ed; try lia; cbn [fst].
  - replace (e - e') with 0 by lia. simpl. lia.
  - rewrite iter_xO. f_equal. f_equal. lia.
Qed.

Lemma shl_align_snd (m : positive) (e e' : Z) :
  e' <= e -> snd (shl_align m e e') = e'.
Proof.
  intros H. unfold shl_align.
  destruct (e' - e) as [|d|d] eqn:Ed; try lia; cbn [snd]; lia.
Qed.

Lemma shl_align_id (m : positive) (e e' : Z) :
  e <= e' -> shl_align m e e' = (m, e).
Proof.
  intros H. unfold shl_align.
  destruct (e' - e) as [|d|d] eqn:Ed; try lia; reflexivity.
Qed.

Lemma digits2_pos_shift (m m' : positive) (k : Z) :
  0 <= k -> Zpos m' = Zpos m * 2 ^ k ->
  Zpos (digits2_pos m') = Zpos (digits2_pos m) + k.
Proof.
  intros Hk Hm. apply digits2_pos_unique. rewrite Hm.
  pose proof (digits2_pos_bounds m) as [Blo Bhi].
  set (d := Zpos (digits2_pos m)) in *.
  assert (0 < d) by (unfold d; lia).
  replace (d + k - 1) with (d - 1 + k) by lia.
  rewrite !Z.pow_add_r by lia.
  pose proof (pow2_pos k Hk). nia.
Qed.

(** *** The result of [binary_round] *)

(** [binary_round s m e] rounds the value [m * 2^e]: seen from any exponent
    [c] below [e] and below the target exponent, its mantissa [K] is the
    integer nearest to [m * 2^(e - c) / 2^(E - c)]. *)
Lemma binary_round_pack (s : bool) (m : positive) (e c : Z) :
  let E := fexp (Zpos (digits2_pos m) + e) in
  c <= e -> c <= E ->
  exists K,
    binary_round prec emax s m e = pack prec emax s K E /\
    (0 <= K <= 2 ^ prec) /\
    (emin < E -> 2 ^ (prec - 1) <= K) /\
    nearest_even (2 ^ (E - c)) (Zpos m * 2 ^ (e - c)) K.
Proof.
  intros E Hce HcE. unfold binary_round. fold E.
  destruct (Z.le_gt_cases e E) as [HeE|HeE].
  - rewrite shl_align_id by assumption.
    destruct (binary_round_aux_pack s (Zpos m) e loc_Exact)
      as (K & HK & Hb & Hn & Hr); [lia|assumption|].
    cbn [Zdigits2] in *. fold E in HK, Hn, Hr.
    exists K. split; [assumption|]. split; [assumption|].
    split; [assumption|].
    specialize (Hr eq_refl).
    replace (E - c) with ((E - e) + (e - c)) by lia.
    rewrite Z.pow_add_r by lia.
    apply nearest_even_scale; [apply pow2_pos; lia|assumption].
  - pose proof (shl_align_fst m e E ltac:(lia)) as Hf.
    pose proof (shl_align_snd m e E ltac:(lia)) as Hs.
    destruct (shl_align m e E) as [mz ez]. cbn [fst snd] in *. subst ez.
    pose proof (digits2_pos_shift m mz (e - E) ltac:(lia) Hf) as Hd.
    destruct (binary_round_aux_pack s (Zpos mz) E loc_Exact)
      as (K & HK & Hb & Hn & Hr).
    + lia.
    + cbn [Zdigits2]. rewrite Hd.
      replace (Zpos (digits2_pos m) + (e - E) + E)
        with (Zpos (digits2_pos m) + e) by lia.
      fold E. lia.
    + cbn [Zdigits2] in *. rewrite Hd in HK, Hn, Hr.
      replace (Zpos (digits2_pos m) + (e - E) + E)
        with (Zpos (digits2_pos m) + e) in * by lia.
      fold E in HK, Hn, Hr.
      exists K. split; [assumption|]. split; [assumption|].
    split; [assumption|].
      specialize (Hr eq_refl).
      replace (E - E) with 0 in Hr by lia. change (2 ^ 0) with 1 in Hr.
      apply nearest_even_unique1 in Hr. subst K. rewrite Hf.
      replace (e - c) with ((e - E) + (E - c)) by lia.
      rewrite Z.pow_add_r by lia. rewrite Z.mul_assoc.
      apply nearest_even_exact. apply pow2_pos. lia.
Qed.

Lemma binary_round_valid (s : bool) (m : positive) (e : Z) :
  valid_binary prec emax (binary_round prec emax s m e) = true.
Proof.
  pose proof (fexp_ge_emin (Zpos (digits2_pos m) + e)) as HE.
  destruct (binary_round_pack s m e
              (Z.min e (fexp (Zpos (digits2_pos m) + e))))
    as (K & HK & Hb & Hn & _); try lia.
  rewrite HK. apply pack_valid; assumption.
Qed.

(** A float in canonical form is left as it is. *)
Lemma binary_round_canonical (s : bool) (m : positive) (e : Z) :
  bounded prec emax m e = true ->
  binary_round prec emax s m e = S754_finite s m e.
Proof.
  unfold bounded, canonical_mantissa. intros H.
  apply andb_true_iff in H. destruct H as [Hc Hb].
  apply Z.eqb_eq in Hc. apply Z.leb_le in Hb.
  destruct (binary_round_pack s m e e) as (K & HK & Hbd & Hn & Hr); try lia.
  rewrite Hc in *. replace (e - e) with 0 in Hr by lia.
  change (2 ^ 0) with 1 in Hr. replace (Zpos m * 1) with (Zpos m) in Hr by lia.
  apply nearest_even_unique1 in Hr. subst K. rewrite HK. unfold pack.
  pose proof (digits2_pos_bounds m) as [Blo Bhi].
  assert (Zpos (digits2_pos m) <= prec) by (unfold SpecFloat.fexp in Hc; lia).
  pose proof (pow2_le_mono (Zpos (digits2_pos m)) prec ltac:(lia)).
  destruct (Z.ltb_spec (Zpos m) (2 ^ prec)); [|lia].
  destruct (Z.leb_spec e (emax - prec)); [reflexivity|lia].
Qed.

(** *** Comparison *)

Lemma SFleb_finite_intro (m1 m2 : positive) (e1 e2 : Z) :
  e1 < e2 \/ (e1 = e2 /\ Zpos m1 <= Zpos m2) ->
  SFleb (S754_finite false m1 e1) (S754_finite false m2 e2) = true.
Proof.
  intros H. unfold SFleb, SFcompare.
  destruct (Z.compare_spec e1 e2) as [He|He|He]; try reflexivity; try lia.
  change (Pos.compare_cont Eq m1 m2) with (Pos.compare m1 m2).
  destruct (Pos.compare_spec m1 m2) as [Hm|Hm|Hm]; try reflexivity. lia.
Qed.

Lemma SFleb_finite_elim (m1 m2 : positive) (e1 e2 : Z) :
  SFleb (S754_finite false m1 e1) (S754_finite false m2 e2) = true ->
  e1 < e2 \/ (e1 = e2 /\ Zpos m1 <= Zpos m2).
Proof.
  unfold SFleb, SFcompare.
  destruct (Z.compare_spec e1 e2) as [He|He|He]; try discriminate; try lia.
  change (Pos.compare_cont Eq m1 m2) with (Pos.compare m1 m2).
  destruct (Pos.compare_spec m1 m2) as [Hm|Hm|Hm]; try discriminate; lia.
Qed.

Lemma SFleb_opp (a b : spec_float) :
  nonneg a = true -> nonneg b = true ->
  SFleb (SFopp a) (SFopp b) = SFleb b a.
Proof.
  destruct a as [sa|[|]| |[|] ma ea]; try discriminate;
    destruct b as [sb|[|]| |[|] mb eb]; try discriminate;
    intros _ _;
    repeat match goal with s : bool |- _ => destruct s end;
    try reflexivity.
  unfold SFleb, SFopp, SFcompare. cbn [negb].
  rewrite (Z.compare_antisym ea eb).
  change (Pos.compare_cont Eq ma mb) with (Pos.compare ma mb).
  change (Pos.compare_cont Eq mb ma) with (Pos.compare mb ma).
  rewrite (Pos.compare_antisym ma mb).
  destruct (ea ?= eb); reflexivity.
Qed.

Lemma SFleb_opp_nonneg (a b : spec_float) :
  nonneg a = true -> nonneg b = true -> SFleb (SFopp a) b = true.
Proof.
  destruct a as [sa|[|]| |[|] ma ea]; try discriminate;
    destruct b as [sb|[|]| |[|] mb eb]; try discriminate; reflexivity.
Qed.

Lemma SFleb_zero_nonneg (s : bool) (b : spec_float) :
  nonneg b = true -> SFleb (S754_zero s) b = true.
Proof. destruct b as [sb|[|]| |[|] mb eb]; try discriminate; reflexivity. Qed.

Lemma SFleb_opp_zero (a : spec_float) (s : bool) :
  nonneg a = true -> SFleb (SFopp a) (S754_zero s) = true.
Proof. destruct a as [sa|[|]| |[|] ma ea]; try discriminate; reflexivity. Qed.

Lemma pack_nonneg (K E : Z) : nonneg (pack prec emax false K E) = true.
Proof.
  unfold pack. destruct K; try reflexivity.
  destruct (_ <? _); destruct (_ <=? _); reflexivity.
Qed.

Lemma pack_mono_mantissa (K1 K2 E : Z) :
  0 <= K1 <= K2 -> K2 <= 2 ^ prec ->
  SFleb (pack prec emax false K1 E) (pack prec emax false K2 E) = true.
Proof.
  intros H1 H2. unfold pack.
  destruct K1 as [|k1|k1]; [apply SFleb_zero_nonneg, (pack_nonneg K2 E)| |lia].
  destruct K2 as [|k2|k2]; [lia| |lia].
  destruct (Z.ltb_spec (Zpos k1) (2 ^ prec)) as [L1|L1];
    destruct (Z.ltb_spec (Zpos k2) (2 ^ prec)) as [L2|L2]; try lia.
  - destruct (Z.leb_spec E (emax - prec)); [|reflexivity].
    apply SFleb_finite_intro. lia.
  - destruct (Z.leb_spec E (emax - prec));
      destruct (Z.leb_spec (E + 1) (emax - prec)); try reflexivity; try lia.
    apply SFleb_finite_intro. lia.
  - assert (k1 = k2) by lia. subst k2.
    destruct (Z.leb_spec (E + 1) (emax - prec)); [|reflexivity].
    apply SFleb_finite_intro. lia.
Qed.

Lemma pack_mono_exponent (K1 K2 E1 E2 : Z) :
  0 <= K1 <= 2 ^ prec -> 2 ^ (prec - 1) <= K2 <= 2 ^ prec -> E1 < E2 ->
  SFleb (pack prec emax false K1 E1) (pack prec emax false K2 E2) = true.
Proof.
  intros H1 H2 HE. unfold pack.
  pose proof (pow2_pos (prec - 1)) as Hp.
  pose proof (pow2_succ (prec - 1)) as Hs.
  replace (prec - 1 + 1) with prec in Hs by lia.
  destruct K1 as [|k1|k1]; [apply SFleb_zero_nonneg, (pack_nonneg K2 E2)| |lia].
  destruct K2 as [|k2|k2]; [lia| |lia].
  destruct (Z.ltb_spec (Zpos k1) (2 ^ prec)) as [L1|L1];
    destruct (Z.ltb_spec (Zpos k2) (2 ^ prec)) as [L2|L2];
    repeat match goal with
           | |- context [?a <=? ?b] => destruct (Z.leb_spec a b)
           end; try reflexivity; try lia;
    apply SFleb_finite_intro; try lia.
  destruct (Z.eq_dec (E1 + 1) E2); [right|lia]. split; [assumption|].
  specialize (Hp ltac:(lia)). specialize (Hs ltac:(lia)).
  generalize dependent (2 ^ (prec - 1)). generalize dependent (2 ^ prec).
  intros P H1 L1 L2 Q H2 Hp Hs.
  destruct k1 as [p|p|]; cbn [Pos.div2].
  - rewrite Pos2Z.inj_xI in *. lia.
  - rewrite Pos2Z.inj_xO in *. lia.
  - lia.
Qed.

(** *** Rounding is monotone *)

Lemma binary_round_mono (m1 m2 : positive) (e1 e2 c : Z) :
  c <= e1 -> c <= e2 -> c <= emin ->
  Zpos m1 * 2 ^ (e1 - c) <= Zpos m2 * 2 ^ (e2 - c) ->
  SFleb (binary_round prec emax false m1 e1)
        (binary_round prec emax false m2 e2) = true.
Proof.
  intros H1 H2 Hc Hle.
  pose proof (fexp_ge_emin (Zpos (digits2_pos m1) + e1)) as HE1.
  pose proof (fexp_ge_emin (Zpos (digits2_pos m2) + e2)) as HE2.
  destruct (binary_round_pack false m1 e1 c) as (K1 & -> & B1 & N1 & R1);
    try lia.
  destruct (binary_round_pack false m2 e2 c) as (K2 & -> & B2 & N2 & R2);
    try lia.
  pose proof (digits2_pos_bounds m1) as [Lo1 Hi1].
  pose proof (digits2_pos_bounds m2) as [Lo2 Hi2].
  set (d1 := Zpos (digits2_pos m1)) in *.
  set (d2 := Zpos (digits2_pos m2)) in *.
  assert (0 < d1) by (unfold d1; lia). assert (0 < d2) by (unfold d2; lia).
  assert (Hd : d1 + e1 <= d2 + e2).
  { assert (2 ^ (d1 - 1 + (e1 - c)) < 2 ^ (d2 + (e2 - c))).
    { rewrite !Z.pow_add_r by lia.
      pose proof (pow2_pos (e1 - c)). pose proof (pow2_pos (e2 - c)). nia. }
    assert (d1 - 1 + (e1 - c) < d2 + (e2 - c)) by (apply pow2_lt_mono; lia).
    lia. }
  set (E1 := fexp (d1 + e1)) in *. set (E2 := fexp (d2 + e2)) in *.
  assert (HE : E1 <= E2) by (unfold E1, E2, SpecFloat.fexp; lia).
  destruct (Z.eq_dec E1 E2) as [Heq|Hne].
  - rewrite Heq in *. apply pack_mono_mantissa; [|lia].
    split; [lia|].
    apply (nearest_even_mono (2 ^ (E2 - c)) (Zpos m1 * 2 ^ (e1 - c))
             (Zpos m2 * 2 ^ (e2 - c))); try assumption.
    apply pow2_pos. lia.
  - apply pack_mono_exponent; try lia.
Qed.

Lemma binary_round_aux_sign (m e : Z) (l : location) :
  binary_round_aux prec emax true m e l
  = SFopp (binary_round_aux prec emax false m e l).
Proof.
  unfold binary_round_aux.
  destruct (shr_fexp prec emax m e l) as [mrs e'].
  destruct (shr_fexp prec emax _ e' loc_Exact) as [mrs' e''].
  destruct (shr_m mrs'); try reflexivity.
  destruct (e'' <=? emax - prec); reflexivity.
Qed.

Lemma binary_round_sign (m : positive) (e : Z) :
  binary_round prec emax true m e = SFopp (binary_round prec emax false m e).
Proof.
  unfold binary_round. destruct (shl_align m e _) as [mz ez].
  apply binary_round_aux_sign.
Qed.

Lemma binary_round_nonneg (m : positive) (e : Z) :
  nonneg (binary_round prec emax false m e) = true.
Proof.
  pose proof (fexp_ge_emin (Zpos (digits2_pos m) + e)) as HE.
  destruct (binary_round_pack false m e
              (Z.min e (fexp (Zpos (digits2_pos m) + e))))
    as (K & -> & _); try lia.
  apply pack_nonneg.
Qed.

(** [binary_normalize] is monotone in the value [S * 2^e] it rounds. *)
Lemma binary_normalize_mono (S1 S2 e1 e2 c : Z) :
  c <= e1 -> c <= e2 -> c <= emin ->
  S1 * 2 ^ (e1 - c) <= S2 * 2 ^ (e2 - c) ->
  SFleb (binary_normalize prec emax S1 e1 false)
        (binary_normalize prec emax S2 e2 false) = true.
Proof.
  intros H1 H2 Hc Hle.
  pose proof (pow2_pos (e1 - c)). pose proof (pow2_pos (e2 - c)).
  destruct S1 as [|m1|m1]; destruct S2 as [|m2|m2];
    cbn [binary_normalize]; try reflexivity; try nia.
  - apply SFleb_zero_nonneg, binary_round_nonneg.
  - apply binary_round_mono with (c := c); assumption.
  - rewrite binary_round_sign. apply SFleb_opp_zero, binary_round_nonneg.
  - rewrite binary_round_sign.
    apply SFleb_opp_nonneg; apply binary_round_nonneg.
  - rewrite !binary_round_sign.
    rewrite SFleb_opp by apply binary_round_nonneg.
    apply binary_round_mono with (c := c); try assumption.
    rewrite <- !Pos2Z.opp_pos in Hle. nia.
Qed.

(** On canonical floats the comparison of the pairs (exponent, mantissa) is
    the comparison of the values. *)
Lemma SFleb_value (m1 m2 : positive) (e1 e2 c : Z) :
  bounded prec emax m1 e1 = true -> bounded prec emax m2 e2 = true ->
  c <= e1 -> c <= e2 ->
  SFleb (S754_finite false m1 e1) (S754_finite false m2 e2) = true ->
  Zpos m1 * 2 ^ (e1 - c) <= Zpos m2 * 2 ^ (e2 - c).
Proof.
  unfold bounded, canonical_mantissa. intros B1 B2 H1 H2 Hle.
  apply andb_true_iff in B1, B2. destruct B1 as [C1 _], B2 as [C2 _].
  apply Z.eqb_eq in C1, C2. apply SFleb_finite_elim in Hle.
  pose proof (digits2_pos_bounds m1) as [Lo1 Hi1].
  pose proof (digits2_pos_bounds m2) as [Lo2 Hi2].
  set (d1 := Zpos (digits2_pos m1)) in *.
  set (d2 := Zpos (digits2_pos m2)) in *.
  assert (0 < d1) by (unfold d1; lia). assert (0 < d2) by (unfold d2; lia).
  unfold SpecFloat.fexp in C1, C2.
  destruct Hle as [Hlt|[-> Hm]].
  - assert (d2 = prec) by lia. assert (d1 <= prec) by lia.
    replace (e2 - c) with ((e2 - e1 - 1) + 1 + (e1 - c)) by lia.
    rewrite !Z.pow_add_r, Z.pow_1_r by lia.
    pose proof (pow2_pos (e2 - e1 - 1) ltac:(lia)) as Pk.
    pose proof (pow2_pos (e1 - c) ltac:(lia)) as Pe.
    pose proof (pow2_le_mono d1 prec ltac:(lia)) as Pd.
    pose proof (pow2_succ (prec - 1) ltac:(lia)) as Hs.
    replace (prec - 1 + 1) with prec in Hs by lia.
    replace (d2 - 1) with (prec - 1) in Lo2 by lia.
    generalize dependent (2 ^ (e2 - e1 - 1)).
    generalize dependent (2 ^ (e1 - c)). generalize dependent (2 ^ d1).
    generalize dependent (2 ^ (prec - 1)). generalize dependent (2 ^ prec).
    intros P Q Lo2 HsQ D Hi1 PD A HA B HB.
    assert (Zpos m1 * A <= 2 * Q * A) by nia.
    assert (2 * Q * A <= 2 * Zpos m2 * A) by nia.
    assert (2 * Zpos m2 * A <= Zpos m2 * (B * 2 * A)) by nia.
    lia.
  - pose proof (pow2_pos (e2 - c)). nia.
Qed.

Lemma SFltb_finite_intro (m1 m2 : positive) (e1 e2 : Z) :
  e1 < e2 \/ (e1 = e2 /\ Zpos m1 < Zpos m2) ->
  SFltb (S754_finite false m1 e1) (S754_finite false m2 e2) = true.
Proof.
  intros H. unfold SFltb, SFcompare.
  destruct (Z.compare_spec e1 e2) as [He|He|He]; try reflexivity; try lia.
  change (Pos.compare_cont Eq m1 m2) with (Pos.compare m1 m2).
  destruct (Pos.compare_spec m1 m2) as [Hm|Hm|Hm]; try reflexivity; lia.
Qed.

Lemma SFltb_finite_elim (m1 m2 : positive) (e1 e2 : Z) :
  SFltb (S754_finite false m1 e1) (S754_finite false m2 e2) = true ->
  e1 < e2 \/ (e1 = e2 /\ Zpos m1 < Zpos m2).
Proof.
  unfold SFltb, SFcompare.
  destruct (Z.compare_spec e1 e2) as [He|He|He]; try discriminate; try lia.
  change (Pos.compare_cont Eq m1 m2) with (Pos.compare m1 m2).
  destruct (Pos.compare_spec m1 m2) as [Hm|Hm|Hm]; try discriminate; lia.
Qed.

Lemma SFltb_leb (a b : spec_float) : SFltb a b = true -> SFleb a b = true.
Proof.
  unfold SFltb, SFleb. destruct (SFcompare a b) as [[| |]|]; congruence.
Qed.

Lemma SFleb_refl (a : spec_float) : a <> S754_nan -> SFleb a a = true.
Proof.
  destruct a as [s|[|]| |[|] m e]; try reflexivity; try congruence; intros _;
    unfold SFleb, SFcompare; rewrite Z.compare_refl;
    change (Pos.compare_cont Eq m m) with (Pos.compare m m);
    rewrite Pos.compare_refl; reflexivity.
Qed.

(** Below a positive finite bound: [a <= b] and [b < c] give [a < c]. *)
Lemma SFleb_ltb_trans (a b : spec_float) (mc : positive) (ec : Z) :
  SFleb a b = true -> SFltb b (S754_finite false mc ec) = true ->
  SFltb a (S754_finite false mc ec) = true.
Proof.
  destruct a as [sa|[|]| |[|] ma ea]; destruct b as [sb|[|]| |[|] mb eb];
    try reflexivity; try discriminate.
  intros Hab Hbc. apply SFleb_finite_elim in Hab.
  apply SFltb_finite_elim in Hbc. apply SFltb_finite_intro. lia.
Qed.

(** *** Validity of products and quotients *)

Lemma bounded_canonical (m : positive) (e : Z) :
  bounded prec emax m e = true ->
  fexp (Zpos (digits2_pos m) + e) = e /\ e <= emax - prec.
Proof.
  unfold bounded, canonical_mantissa. intros H.
  apply andb_true_iff in H. destruct H as [Hc Hb].
  apply Z.eqb_eq in Hc. apply Z.leb_le in Hb. split; assumption.
Qed.

Lemma binary_round_aux_valid (s : bool) (m e : Z) (l : location) :
  0 <= m -> e <= fexp (Zdigits2 m + e) ->
  valid_binary prec emax (binary_round_aux prec emax s m e l) = true.
Proof.
  intros Hm He.
  destruct (binary_round_aux_pack s m e l Hm He) as (K & -> & Hb & Hn & _).
  apply pack_valid; try assumption. apply fexp_ge_emin.
Qed.

Lemma SFmul_valid (x y : spec_float) :
  valid_binary prec emax x = true -> valid_binary prec emax y = true ->
  valid_binary prec emax (SFmul prec emax x y) = true.
Proof.
  destruct x as [sx|sx| |sx mx ex]; destruct y as [sy|sy| |sy my ey];
    try reflexivity.
  cbn [valid_binary SFmul]. intros Hx Hy.
  apply bounded_canonical in Hx, Hy. destruct Hx as [Cx _], Hy as [Cy _].
  apply binary_round_aux_valid; [lia|]. cbn [Zdigits2].
  pose proof (digits2_pos_bounds mx) as [Lx Ux].
  pose proof (digits2_pos_bounds my) as [Ly Uy].
  pose proof (digits2_pos_bounds (mx * my)) as [Lxy Uxy].
  set (dx := Zpos (digits2_pos mx)) in *.
  set (dy := Zpos (digits2_pos my)) in *.
  set (dxy := Zpos (digits2_pos (mx * my))) in *.
  assert (0 < dx) by (unfold dx; lia). assert (0 < dy) by (unfold dy; lia).
  assert (Hd : dx + dy - 1 <= dxy).
  { assert (2 ^ ((dx - 1) + (dy - 1)) < 2 ^ dxy).
    { rewrite Z.pow_add_r by lia. rewrite Pos2Z.inj_mul in Uxy.
      pose proof (pow2_pos (dx - 1) ltac:(lia)).
      pose proof (pow2_pos (dy - 1) ltac:(lia)). nia. }
    assert ((dx - 1) + (dy - 1) < dxy) by (apply pow2_lt_mono; lia). lia. }
  unfold SpecFloat.fexp, SpecFloat.emin in *. lia.
Qed.

Lemma SFdiv_valid (x y : spec_float) :
  valid_binary prec emax x = true -> valid_binary prec emax y = true ->
  valid_binary prec emax (SFdiv prec emax x y) = true.
Proof.
  destruct x as [sx|sx| |sx mx ex]; destruct y as [sy|sy| |sy my ey];
    try reflexivity.
  intros _ _. cbn [SFdiv]. unfold SFdiv_core_binary. cbn [Zdigits2].
  pose proof (digits2_pos_bounds mx) as [Lx Ux].
  pose proof (digits2_pos_bounds my) as [Ly Uy].
  set (dx := Zpos (digits2_pos mx)) in *.
  set (dy := Zpos (digits2_pos my)) in *.
  assert (0 < dx) by (unfold dx; lia). assert (0 < dy) by (unfold dy; lia).
  set (e' := Z.min (fexp (dx + ex - (dy + ey))) (ex - ey)).
  set (sh := ex - ey - e').
  assert (Hsh : 0 <= sh) by (unfold sh, e'; lia).
  set (m' := match sh with
             | Zpos _ => Z.shiftl (Zpos mx) sh
             | Z0 => Zpos mx
             | Zneg _ => Z0
             end).
  assert (Hm' : m' = Zpos mx * 2 ^ sh).
  { unfold m'. destruct sh as [|p|p] eqn:Esh; [simpl; lia| |lia].
    apply Z.shiftl_mul_pow2. lia. }
  destruct (Z.div_eucl m' (Zpos my)) as [q r] eqn:Hdiv.
  assert (Hq : q = m' / Zpos my) by (unfold Z.div; rewrite Hdiv; reflexivity).
  pose proof (pow2_pos sh Hsh) as Psh.
  assert (Hq0 : 0 <= q).
  { rewrite Hq. apply Z.div_pos; lia. }
  apply binary_round_aux_valid; [assumption|].
  pose proof (Zdigits2_nonneg q) as Dq0.
  pose proof (Zdigits2_upper q Hq0) as Dq.
  assert (Ht : dx - dy + sh <= Zdigits2 q).
  { destruct (Z.le_gt_cases (dx - dy + sh) 0) as [|Hpos]; [lia|].
    assert (Hlow : 2 ^ (dx - dy + sh - 1) <= q).
    { rewrite Hq. apply Z.div_le_lower_bound; [lia|].
      rewrite Hm'.
      assert (Hp : 2 ^ (dx - 1) * 2 ^ sh = 2 ^ (dx - dy + sh - 1) * 2 ^ dy).
      { rewrite <- !Z.pow_add_r by lia. f_equal. lia. }
      pose proof (pow2_pos (dx - dy + sh - 1) ltac:(lia)).
      generalize dependent (2 ^ (dx - dy + sh - 1)).
      generalize dependent (2 ^ (dx - 1)). generalize dependent (2 ^ dy).
      generalize dependent (2 ^ sh). intros. nia. }
    assert (dx - dy + sh - 1 < Zdigits2 q) by (apply pow2_lt_mono; lia).
    lia. }
  assert (He' : e' <= fexp (dx + ex - (dy + ey))) by (unfold e'; lia).
  unfold SpecFloat.fexp in *. unfold sh in Ht. lia.
Qed.

Lemma binary_normalize_valid (z e : Z) (s : bool) :
  valid_binary prec emax (binary_normalize prec emax z e s) = true.
Proof.
  destruct z; cbn [binary_normalize]; [reflexivity| |];
    apply binary_round_valid.
Qed.

(** *** Addition is monotone *)

(** The sum of two finite floats is the rounding of the exact sum. *)
Lemma SFadd_finite (sx sy : bool) (mx my : positive) (ex ey c : Z) :
  c <= ex -> c <= ey ->
  exists S,
    SFadd prec emax (S754_finite sx mx ex) (S754_finite sy my ey)
    = binary_normalize prec emax S (Z.min ex ey) false /\
    S * 2 ^ (Z.min ex ey - c)
    = cond_Zopp sx (Zpos mx) * 2 ^ (ex - c)
      + cond_Zopp sy (Zpos my) * 2 ^ (ey - c).
Proof.
  intros Hx Hy. cbn [SFadd]. set (ez := Z.min ex ey).
  eexists. split; [reflexivity|].
  rewrite !shl_align_fst by (unfold ez; lia).
  replace (ex - c) with ((ex - ez) + (ez - c)) by lia.
  replace (ey - c) with ((ey - ez) + (ez - c)) by lia.
  rewrite !Z.pow_add_r by (unfold ez; lia).
  destruct sx, sy; cbn [cond_Zopp]; ring.
Qed.

Lemma finite_as_normalize (s : bool) (m : positive) (e : Z) :
  bounded prec emax m e = true ->
  S754_finite s m e
  = binary_normalize prec emax (cond_Zopp s (Zpos m)) e false.
Proof.
  intros H. destruct s; cbn [cond_Zopp Z.opp binary_normalize];
    rewrite binary_round_canonical by assumption; reflexivity.
Qed.

Lemma emin_le_canonical (m : positive) (e : Z) :
  bounded prec emax m e = true -> emin <= e.
Proof.
  intros H. apply bounded_canonical in H. destruct H as [H _].
  rewrite <- H. apply fexp_ge_emin.
Qed.

Lemma SFadd_mono (x y p : spec_float) :
  nonneg_finite x = true -> nonneg_finite y = true ->
  valid_binary prec emax x = true -> valid_binary prec emax y = true ->
  valid_binary prec emax p = true ->
  SFleb x y = true ->
  (SFadd prec emax x p = S754_nan /\ SFadd prec emax y p = S754_nan) \/
  SFleb (SFadd prec emax x p) (SFadd prec emax y p) = true.
Proof.
  intros Nx Ny Vx Vy Vp Hle.
  destruct p as [sp|sp| |sp mp ep].
  - (* p is a zero *)
    right.
    destruct x as [sx|sx| |[|] mx ex]; try discriminate;
      destruct y as [sy|sy| |[|] my ey]; try discriminate;
      cbn [SFadd]; try assumption;
      repeat match goal with s : bool |- _ => destruct s end;
      try reflexivity; try assumption.
  - (* p is an infinity *)
    right.
    destruct x as [sx|sx| |[|] mx ex]; try discriminate;
      destruct y as [sy|sy| |[|] my ey]; try discriminate;
      cbn [SFadd]; destruct sp; reflexivity.
  - (* p is a NaN *)
    left.
    destruct x as [sx|sx| |[|] mx ex]; try discriminate;
      destruct y as [sy|sy| |[|] my ey]; try discriminate;
      split; reflexivity.
  - (* p is finite *)
    right. cbn [valid_binary] in Vp.
    pose proof (emin_le_canonical mp ep Vp) as Hep.
    destruct x as [sx|sx| |[|] mx ex]; try discriminate;
      destruct y as [sy|sy| |[|] my ey]; try discriminate.
    + cbn [SFadd]. apply SFleb_refl. discriminate.
    + cbn [valid_binary] in Vy.
      pose proof (emin_le_canonical my ey Vy) as Hey.
      destruct (SFadd_finite false sp my mp ey ep emin) as (S & -> & HS);
        try assumption.
      change (SFadd prec emax (S754_zero sx) (S754_finite sp mp ep))
        with (S754_finite sp mp ep).
      rewrite (finite_as_normalize sp mp ep Vp).
      apply binary_normalize_mono with (c := emin); try lia.
      rewrite HS. cbn [cond_Zopp].
      pose proof (pow2_pos (ey - emin) ltac:(lia)). nia.
    + cbn [valid_binary] in Vx, Vy.
      pose proof (emin_le_canonical mx ex Vx) as Hex.
      pose proof (emin_le_canonical my ey Vy) as Hey.
      destruct (SFadd_finite false sp mx mp ex ep emin) as (S1 & -> & HS1);
        try assumption.
      destruct (SFadd_finite false sp my mp ey ep emin) as (S2 & -> & HS2);
        try assumption.
      apply binary_normalize_mono with (c := emin); try lia.
      rewrite HS1, HS2. cbn [cond_Zopp].
      pose proof (SFleb_value mx my ex ey emin Vx Vy Hex Hey Hle). lia.
Qed.
End Rounding.

Local Open Scope string_scope.

(** * Binary64 *)

Lemma prec_pos : 0 < PyFloat.prec.
Proof. reflexivity. Qed.

Lemma prec_lt_emax : PyFloat.prec < PyFloat.emax.
Proof. reflexivity. Qed.

Lemma SFleb_antisym (a b : spec_float) :
  SFleb a b = true -> SFleb b a = true -> SFeqb a b = true.
Proof.
  destruct a as [sa|[|]| |[|] ma ea]; destruct b as [sb|[|]| |[|] mb eb];
    try reflexivity; try discriminate;
    unfold SFleb, SFeqb, SFcompare;
    rewrite (Z.compare_antisym ea eb);
    change (Pos.compare_cont Eq ma mb) with (Pos.compare ma mb);
    change (Pos.compare_cont Eq mb ma) with (Pos.compare mb ma);
    rewrite (Pos.compare_antisym ma mb);
    destruct (ea ?= eb)%Z; try (simpl; congruence);
    destruct (ma ?= mb)%positive; simpl; congruence.
Qed.

Lemma SFeqb_leb (a b : spec_float) :
  SFeqb a b = true -> SFleb a b = true /\ SFleb b a = true.
Proof.
  destruct a as [sa|[|]| |[|] ma ea]; destruct b as [sb|[|]| |[|] mb eb];
    try (split; reflexivity); try discriminate;
    unfold SFleb, SFeqb, SFcompare;
    rewrite (Z.compare_antisym ea eb);
    change (Pos.compare_cont Eq ma mb) with (Pos.compare ma mb);
    change (Pos.compare_cont Eq mb ma) with (Pos.compare mb ma);
    rewrite (Pos.compare_antisym ma mb);
    destruct (ea ?= eb)%Z; try (simpl; intros; split; congruence);
    destruct (ma ?= mb)%positive; simpl; intros; split; congruence.
Qed.

Lemma float_of_int_valid (z : Z) (v : float) :
  float_of_int z = Some v -> PyFloat.valid v = true.
Proof.
  unfold float_of_int. intros H.
  assert (Hv : PyFloat.valid (PyFloat.of_Z z) = true)
    by apply (binary_normalize_valid PyFloat.prec PyFloat.emax prec_pos
                prec_lt_emax).
  destruct (PyFloat.of_Z z); inversion H; subst; assumption.
Qed.

(** The speed penalty is a binary64 number in canonical form. *)
Lemma speed_penalty_valid (s : Z) (p : float) :
  speed_penalty s = Some p -> PyFloat.valid p = true.
Proof.
  unfold speed_penalty.
  destruct (float_of_int s) as [v|] eqn:Hs; [|discriminate].
  intros H. inversion H. subst p. clear H.
  apply (SFmul_valid _ _ prec_pos prec_lt_emax); [|reflexivity].
  apply (SFdiv_valid _ _ prec_pos prec_lt_emax); [|reflexivity].
  apply (float_of_int_valid s). assumption.
Qed.

(** A coerced risk is a NaN, a zero or a positive finite float. *)
Lemma risk_of_range (field : option pyval) :
  valid_risk field = true ->
  risk_of field = S754_nan \/
  (nonneg_finite (risk_of field) = true /\
   PyFloat.valid (risk_of field) = true).
Proof.
  intros Hv. unfold risk_of, _riskify.
  assert (Hc : forall v, PyFloat.valid v = true ->
            PyFloat.min (PyFloat.max v f0_0) f1_0 = S754_nan \/
            (nonneg_finite (PyFloat.min (PyFloat.max v f0_0) f1_0) = true /\
             PyFloat.valid (PyFloat.min (PyFloat.max v f0_0) f1_0) = true)).
  { intros v Vv. unfold PyFloat.min, PyFloat.max, PyFloat.lt, PyFloat.gt.
    destruct v as [s|[|]| |[|] m e]; cbn [SFltb SFcompare f0_0];
      try (left; reflexivity); try (right; split; reflexivity).
    destruct (SFltb f1_0 (S754_finite false m e));
      right; split; try reflexivity; assumption. }
  destruct field as [[f|z|]|]; cbn [get py_float valid_risk] in *.
  - apply Hc. assumption.
  - destruct (float_of_int z) as [v|] eqn:Hz.
    + apply Hc. apply (float_of_int_valid z). assumption.
    + right. split; reflexivity.
  - right. split; reflexivity.
  - apply Hc. reflexivity.
Qed.

(** The clamp [min(1.0, .)] is monotone. *)
Lemma clamp_mono (a b : float) :
  (a = S754_nan /\ b = S754_nan) \/ SFleb a b = true ->
  SFleb (PyFloat.min f1_0 a) (PyFloat.min f1_0 b) = true.
Proof.
  unfold PyFloat.min, PyFloat.lt. intros [[-> ->]|Hle]; [reflexivity|].
  destruct (SFltb a f1_0) eqn:A; destruct (SFltb b f1_0) eqn:B.
  - assumption.
  - apply SFltb_leb. assumption.
  - unfold f1_0 in A, B. rewrite (SFleb_ltb_trans a b _ _ Hle B) in A.
    discriminate.
  - reflexivity.
Qed.

(** Lines 54-55 keep the order of the two coerced risks. *)
Lemma effective_risks_mono (l r : float) (s : Z) (le re : float) :
  nonneg_finite l = true -> nonneg_finite r = true ->
  PyFloat.valid l = true -> PyFloat.valid r = true ->
  effective_risks l r s = Some (le, re) ->
  SFleb l r = true -> SFleb le re = true.
Proof.
  intros Nl Nr Vl Vr Heff Hle. unfold effective_risks in Heff.
  destruct (speed_penalty s) as [p|] eqn:Hp; [|discriminate].
  inversion Heff. subst le re. clear Heff.
  apply clamp_mono.
  apply (SFadd_mono PyFloat.prec PyFloat.emax prec_pos prec_lt_emax);
    try assumption.
  apply (speed_penalty_valid s). assumption.
Qed.

Lemma effective_risks_swap (l r : float) (s : Z) (le re : float) :
  effective_risks l r s = Some (le, re) ->
  effective_risks r l s = Some (re, le).
Proof.
  unfold effective_risks. destruct (speed_penalty s); [|discriminate].
  intros H. inversion H. reflexivity.
Qed.

(** * Properties of the decision core *)

(** ** Universal override *)

(** Whenever the speed converts to a float, so that lines 54-55 yield the
    effective risks [le] and [re], and [le + re >= 1.40] or [speed >= 45],
    the decision is ["brake"] in every mode, whatever the scenario name, the
    child flag and the base action. *)
Lemma universal_override (mode : string) (data : scenario) (le re : float) :
  effective_risks (left_r data) (right_r data) (speed data) = Some (le, re) ->
  PyFloat.ge (PyFloat.add le re) f1_40 = true \/ (45 <= speed data)%Z ->
  decide_action mode data = Returns "brake".
Proof.
  intros Heff Hover. unfold decide_action. rewrite Heff.
  assert (Hc : (PyFloat.ge (PyFloat.add le re) VERY_HIGH_TOTAL
                || (speed data >=? HIGH_SPEED)%Z)%bool = true).
  { apply orb_true_iff. destruct Hover as [H|H].
    - left. exact H.
    - right. unfold HIGH_SPEED. apply Z.geb_le. exact H. }
  rewrite Hc. reflexivity.
Qed.

Lemma universal_override_ex4 :
  decide_action "utilitarian" ex4 = Returns "brake".
Proof.
  apply (universal_override "utilitarian" ex4
           (S754_finite false 7581059372740335 (-53))
           (S754_finite false 8706959279582960 (-55))).
  - vm_compute. reflexivity.
  - right. vm_compute. discriminate.
Defined.

(** C1, at a speed of 2^1024 kph. The speed is at least 45, and the comment
    on line 68 promises ["brake"]; but [speed/120.0] on line 54 raises
    [OverflowError] before the override on line 67 is reached, and nothing
    is returned. *)
Theorem universal_override_overflow :
  (45 <= speed too_fast)%Z /\
  decide_action "utilitarian" too_fast = Raises OverflowError /\
  decide_action "utilitarian" too_fast <> Returns "brake".
Proof.
  split; [vm_compute; discriminate|].
  split; [vm_compute; reflexivity|].
  vm_compute. discriminate.
Qed.

(** ** The deontological branch *)

(** C2. In a mode whose lower-case form starts with ["deon"], the decision is
    never ["swerve_left"] and never ["swerve_right"]. *)
Theorem deontological_never_swerves (mode : string) (data : scenario) :
  PyStr.startswith (PyStr.lower mode) "deon" = true ->
  decide_action mode data <> Returns "swerve_left" /\
  decide_action mode data <> Returns "swerve_right".
Proof.
  intros Hdeon.
  assert (Hutil : PyStr.startswith (PyStr.lower mode) "util" = false).
  { destruct (PyStr.startswith (PyStr.lower mode) "util") eqn:E; [|reflexivity].
    apply startswith_util_not_deon in E. congruence. }
  unfold decide_action. rewrite Hutil, Hdeon.
  destruct (effective_risks _ _ _) as [[le re]|]; [|split; discriminate].
  destruct (_ || _)%bool; [split; discriminate|].
  destruct (PyFloat.ge _ HIGH_SIDE_RISK); [split; discriminate|].
  destruct (child data =? 1)%Z; [split; discriminate|].
  destruct (_ && _)%bool; [split; discriminate|].
  destruct (_ =? "brake"); split; discriminate.
Qed.

Lemma deontological_never_swerves_witness :
  decide_action "Deontological" ex1 <> Returns "swerve_left" /\
  decide_action "Deontological" ex1 <> Returns "swerve_right".
Proof.
  apply (deontological_never_swerves "Deontological" ex1).
  vm_compute. reflexivity.
Defined.

(** ** Risk coercion *)

(** C3, at an input risk of [2.0]: it lies outside [[0.0, 1.0]] and is coerced
    to [1.0], not to [0.0]. *)
Lemma riskify_two :
  PyFloat.gt f2_0 f1_0 = true /\
  risk_of (Some (VFloat f2_0)) = f1_0 /\
  risk_of (Some (VFloat f2_0)) <> f0_0.
Proof.
  split; [|split]; vm_compute; [reflexivity | reflexivity | discriminate].
Qed.

Lemma gt_one_not_lt_zero (v : float) :
  PyFloat.gt v f1_0 = true -> PyFloat.gt f0_0 v = false.
Proof.
  unfold PyFloat.gt, SFltb.
  destruct v as [s|s| |s m e]; try destruct s; simpl; congruence.
Qed.

(** C3 (as amended). The coerced risk is [0.0] when the key is missing, when
    [float] fails on the value, and when the value is below [0.0]; it is [1.0]
    when the value is above [1.0]. *)
Theorem riskify_clamps (x : pyval) (v : float) :
  risk_of None = f0_0 /\
  (py_float x = None -> risk_of (Some x) = f0_0) /\
  (py_float x = Some v -> PyFloat.lt v f0_0 = true ->
   risk_of (Some x) = f0_0) /\
  (py_float x = Some v -> PyFloat.gt v f1_0 = true ->
   risk_of (Some x) = f1_0).
Proof.
  unfold risk_of, _riskify, get. split; [reflexivity|].
  split; [intros ->; reflexivity|].
  split; intros -> H.
  - unfold PyFloat.max, PyFloat.gt. unfold PyFloat.lt in H. rewrite H.
    reflexivity.
  - unfold PyFloat.max. rewrite (gt_one_not_lt_zero v H).
    unfold PyFloat.min, PyFloat.lt. unfold PyFloat.gt in H. rewrite H.
    reflexivity.
Qed.

Lemma riskify_clamps_witness :
  risk_of (Some VOther) = f0_0 /\
  risk_of (Some (VFloat (SFopp f2_0))) = f0_0 /\
  risk_of (Some (VInt 2)) = f1_0.
Proof.
  split; [|split].
  - apply (proj1 (proj2 (riskify_clamps VOther f0_0))). reflexivity.
  - apply (proj1 (proj2 (proj2
             (riskify_clamps (VFloat (SFopp f2_0)) (SFopp f2_0)))));
      reflexivity.
  - apply (proj2 (proj2 (proj2 (riskify_clamps (VInt 2) f2_0))));
      reflexivity.
Defined.

(** ** Mode selection *)

(** C4, at the mode ["util"]. Its lower-case form starts with ["util"] and
    the refinement does take the utilitarian branch (line 78); but
    [_base_decision] compares the mode with ["utilitarian"] exactly and falls
    through to the virtue rule, so that ["util"] and ["utilitarian"] decide
    differently. *)
Theorem prefix_mode_differs :
  PyStr.startswith (PyStr.lower "util") "util" = true /\
  decide_action "util" tie = Returns "slow_down" /\
  decide_action "utilitarian" tie = Returns "swerve_left".
Proof.
  split; [|split]; vm_compute; reflexivity.
Qed.

(** The same with the prefix ["deon"]. *)
Lemma prefix_mode_differs_deon :
  decide_action "deon" (mkScenario "car_vs_car" (Some 0) (Some (pct 10))
                          (Some (pct 10)) (Some 0)) = Returns "hold_lane" /\
  decide_action "deontological"
                (mkScenario "car_vs_car" (Some 0) (Some (pct 10))
                   (Some (pct 10)) (Some 0)) = Returns "brake".
Proof.
  split; vm_compute; reflexivity.
Qed.

(** Every mode outside the two prefixes decides as ["virtue"] does. *)
Lemma other_modes_as_virtue (mode : string) (data : scenario) :
  PyStr.startswith (PyStr.lower mode) "util" = false ->
  PyStr.startswith (PyStr.lower mode) "deon" = false ->
  decide_action mode data = decide_action "virtue" data.
Proof.
  intros Hu Hd. unfold decide_action.
  change (PyStr.lower "virtue") with "virtue".
  rewrite Hu, Hd. reflexivity.
Qed.

(** ** Label normalisation *)

(** C5, at the string ["fly"]: it is outside the recognised set and [_norm]
    returns it unchanged, not ["brake"]. *)
Lemma norm_keeps_unrecognized :
  ~ In "fly" recognized /\ _norm (Some "fly") = "fly" /\
  _norm (Some "fly") <> "brake".
Proof.
  split; [|split].
  - simpl. intros H. repeat destruct H as [H|H]; try discriminate H; exact H.
  - reflexivity.
  - vm_compute. discriminate.
Qed.

(** C5 (as amended). [_norm] is total; an absent action gives ["brake"];
    a string that is ["straight"] once stripped and lower-cased gives
    ["hold_lane"], one that is ["slow down"] gives ["slow_down"]; every other
    string is returned stripped and lower-cased, as it is. *)
Theorem norm_spec (a : string) :
  _norm None = "brake" /\
  (PyStr.lower (PyStr.strip a) = "straight" -> _norm (Some a) = "hold_lane") /\
  (PyStr.lower (PyStr.strip a) = "slow down" -> _norm (Some a) = "slow_down") /\
  (PyStr.lower (PyStr.strip a) <> "straight" ->
   PyStr.lower (PyStr.strip a) <> "slow down" ->
   _norm (Some a) = PyStr.lower (PyStr.strip a)).
Proof.
  split; [reflexivity|]. unfold _norm.
  split; [intros ->; reflexivity|].
  split; [intros ->; reflexivity|].
  intros H1 H2.
  destruct (String.eqb_spec (PyStr.lower (PyStr.strip a)) "straight");
    [contradiction|].
  destruct (String.eqb_spec (PyStr.lower (PyStr.strip a)) "slow down");
    [contradiction|reflexivity].
Qed.

Lemma norm_spec_witness :
  _norm (Some " Straight ") = "hold_lane" /\
  _norm (Some "Slow Down") = "slow_down" /\
  _norm (Some " Fly") = "fly".
Proof.
  split; [|split].
  - apply (norm_spec " Straight "). reflexivity.
  - apply (norm_spec "Slow Down"). reflexivity.
  - apply (norm_spec " Fly"); vm_compute; discriminate.
Defined.

(** ** The base policy table *)

(** C6. For each of the three modes and every scenario, the normalised base
    decision is the entry of the specification's table for the scenario's
    kind; a name that is none of the three known ones counts as [Unknown] and
    gives ["hold_lane"]. *)
Theorem base_policy_table (m : Spec.EthicalMode) (data : scenario) :
  _base_decision (Spec.mode_name m) data
  = Spec.label_name (Spec.base_table m (Spec.kind_of_name (name data))).
Proof.
  unfold _base_decision, Spec.kind_of_name,
    ethics_engine.utilitarian_decision, ethics_engine.deontological_decision,
    ethics_engine.virtue_ethics_decision.
  destruct m; simpl;
    destruct (name data =? "car_vs_pedestrian"); try reflexivity;
    destruct (name data =? "car_vs_car"); try reflexivity;
    destruct (name data =? "pedestrian_vs_pedestrian"); reflexivity.
Qed.

(** ** Totality *)

(** For every mode string and every scenario whose speed converts to a
    float, [decide_action] raises nothing and returns one of the five
    labels. *)
Lemma decide_action_total (mode : string) (data : scenario) :
  float_of_int (speed data) <> None ->
  exists a, decide_action mode data = Returns a /\ In a labels.
Proof.
  intros Hspeed. unfold decide_action, effective_risks, speed_penalty.
  destruct (float_of_int (speed data)) as [s|]; [clear Hspeed|congruence].
  set (le := PyFloat.min f1_0 _). set (re := PyFloat.min f1_0 _).
  set (b := veto_right _ _ _ _).
  assert (Hb : In b labels).
  { apply veto_right_in_labels, veto_left_in_labels, base_decision_in_labels. }
  clearbody b le re.
  repeat match goal with
         | |- context [if ?c then _ else _] => destruct c
         end;
    eexists; (split; [reflexivity|]); first [exact Hb | simpl; tauto].
Qed.

Lemma decide_action_total_ex1 :
  exists a, decide_action "virtue" ex1 = Returns a /\ In a labels.
Proof.
  apply (decide_action_total "virtue" ex1). vm_compute. discriminate.
Defined.

(** C7, at a speed of 2^1024 kph. The record has its five keys and the speed
    is an integer; yet [speed/120.0] on line 54 raises [OverflowError] and
    no label is returned. *)
Theorem decide_action_raises :
  decide_action "virtue" too_fast = Raises OverflowError /\
  ~ (exists a, decide_action "virtue" too_fast = Returns a /\ In a labels).
Proof.
  assert (H : decide_action "virtue" too_fast = Raises OverflowError)
    by (vm_compute; reflexivity).
  split; [exact H|]. intros [a [Ha _]]. rewrite H in Ha. discriminate.
Qed.

(** A risk of 2^1024 does not raise: [_riskify] catches the [OverflowError]
    of [float(x)] and gives [0.0]. *)
Example riskify_huge_int : risk_of (Some (VInt (2 ^ 1024))) = f0_0.
Proof. vm_compute. reflexivity. Qed.

(** ** The speed penalty *)

(** C8, at the risks [0.97] and [0.99] and a speed of 60 kph: the left risk
    is strictly below the right one, yet both effective risks are clamped to
    [1.0], and the left one is not strictly below the right one. *)
Lemma clamp_collapses_order :
  PyFloat.lt (left_r clamped) (right_r clamped) = true /\
  effective_risks (left_r clamped) (right_r clamped) (speed clamped)
  = Some (f1_0, f1_0) /\
  PyFloat.lt f1_0 f1_0 = false.
Proof.
  split; [|split]; vm_compute; reflexivity.
Qed.

(** C8 (as amended). The speed penalty never reverses the order of the two
    sides: when the risks held by the scenario are binary64 numbers and lines
    54-55 yield the effective risks [le] and [re], a coerced left risk
    strictly below the right one gives [le <= re] (and symmetrically), and
    equal coerced risks give equal effective risks. *)
Theorem penalty_keeps_order (data : scenario) (le re : float) :
  valid_risk (left_risk data) = true ->
  valid_risk (right_risk data) = true ->
  effective_risks (left_r data) (right_r data) (speed data) = Some (le, re) ->
  (PyFloat.lt (left_r data) (right_r data) = true -> PyFloat.le le re = true) /\
  (PyFloat.lt (right_r data) (left_r data) = true -> PyFloat.le re le = true) /\
  (PyFloat.eq (left_r data) (right_r data) = true -> PyFloat.eq le re = true).
Proof.
  intros Vl Vr Heff. unfold left_r, right_r in *.
  pose proof (effective_risks_swap _ _ _ _ _ Heff) as Hswap.
  assert (Hmono : SFleb (risk_of (left_risk data)) (risk_of (right_risk data))
                  = true -> SFleb le re = true).
  { intros Hle.
    destruct (risk_of_range (left_risk data) Vl) as [El|[Nl Wl]];
      [rewrite El in Hle; discriminate|].
    destruct (risk_of_range (right_risk data) Vr) as [Er|[Nr Wr]];
      [rewrite Er in Hle;
       destruct (risk_of (left_risk data)) as [?|[|]| |[|] ? ?];
       discriminate|].
    apply (effective_risks_mono _ _ _ _ _ Nl Nr Wl Wr Heff Hle). }
  assert (Hmono' : SFleb (risk_of (right_risk data)) (risk_of (left_risk data))
                   = true -> SFleb re le = true).
  { intros Hle.
    destruct (risk_of_range (right_risk data) Vr) as [Er|[Nr Wr]];
      [rewrite Er in Hle; discriminate|].
    destruct (risk_of_range (left_risk data) Vl) as [El|[Nl Wl]];
      [rewrite El in Hle;
       destruct (risk_of (right_risk data)) as [?|[|]| |[|] ? ?];
       discriminate|].
    apply (effective_risks_mono _ _ _ _ _ Nr Nl Wr Wl Hswap Hle). }
  unfold PyFloat.lt, PyFloat.le, PyFloat.eq.
  split; [|split].
  - intros H. apply Hmono, SFltb_leb, H.
  - intros H. apply Hmono', SFltb_leb, H.
  - intros H. apply SFeqb_leb in H. destruct H as [H1 H2].
    apply SFleb_antisym; [apply Hmono|apply Hmono']; assumption.
Qed.

Lemma penalty_keeps_order_witness :
  PyFloat.le (S754_finite false 5854679515581645 (-54))
             (S754_finite false 5629499534213120 (-53)) = true.
Proof.
  apply (penalty_keeps_order ex1
           (S754_finite false 5854679515581645 (-54))
           (S754_finite false 5629499534213120 (-53))).
  - vm_compute. reflexivity.
  - vm_compute. reflexivity.
  - vm_compute. reflexivity.
  - vm_compute. reflexivity.
Defined.

(** ** The virtue branch *)

(** C9. In a mode whose lower-case form starts with neither ["util"] nor
    ["deon"], two scenarios that agree on every key but [name] get the same
    decision. *)
Theorem virtue_ignores_name (mode : string) (d1 d2 : scenario) :
  PyStr.startswith (PyStr.lower mode) "util" = false ->
  PyStr.startswith (PyStr.lower mode) "deon" = false ->
  child_present d1 = child_present d2 ->
  left_risk d1 = left_risk d2 ->
  right_risk d1 = right_risk d2 ->
  speed_kph d1 = speed_kph d2 ->
  decide_action mode d1 = decide_action mode d2.
Proof.
  intros Hu Hd Hc Hl Hr Hs.
  unfold decide_action, child, left_r, right_r, speed.
  rewrite Hu, Hd, Hc, Hl, Hr, Hs. reflexivity.
Qed.

Lemma virtue_ignores_name_witness :
  decide_action "virtue" ex1 =
  decide_action "virtue"
    (mkScenario "car_vs_car" (Some 0) (Some (pct 30)) (Some (pct 60))
                (Some 30)).
Proof.
  apply virtue_ignores_name; reflexivity.
Defined.

(** ** The child-protection veto *)

(** C10. The normalised base decision is one of ["swerve_left"], ["brake"],
    ["slow_down"], ["hold_lane"], never ["swerve_right"]; the second [if] of
    the veto (lines 74-75) therefore leaves the base action as it finds it. *)
Theorem right_veto_unreachable (mode : string) (data : scenario)
        (le re : float) :
  _base_decision (PyStr.lower mode) data <> "swerve_right" /\
  In (_base_decision (PyStr.lower mode) data)
     ["swerve_left"; "brake"; "slow_down"; "hold_lane"] /\
  veto_right (child data) le re
    (veto_left (child data) le re (_base_decision (PyStr.lower mode) data))
  = veto_left (child data) le re (_base_decision (PyStr.lower mode) data).
Proof.
  destruct (base_decision_cases (PyStr.lower mode) data) as [H|[H|[H|H]]];
    rewrite H; (split; [discriminate|]); (split; [simpl; tauto|]);
    unfold veto_right, veto_left;
    destruct (child data =? 1)%Z; simpl; try reflexivity;
    destruct (PyFloat.gt le re); simpl;
    rewrite ?andb_false_r; reflexivity.
Qed.

(** * Further properties of [rules_adapter.py] *)

(** ** [_norm] *)

Lemma lower_ascii_idem (c : ascii) :
  PyStr.lower_ascii (PyStr.lower_ascii c) = PyStr.lower_ascii c.
Proof. destruct c as [[] [] [] [] [] [] [] []]; reflexivity. Qed.

Lemma is_space_lower_ascii (c : ascii) :
  PyStr.is_space (PyStr.lower_ascii c) = PyStr.is_space c.
Proof. destruct c as [[] [] [] [] [] [] [] []]; reflexivity. Qed.

Lemma lower_idem (s : string) : PyStr.lower (PyStr.lower s) = PyStr.lower s.
Proof.
  induction s as [|c s IH]; simpl; [reflexivity|].
  rewrite lower_ascii_idem, IH. reflexivity.
Qed.

Lemma lstrip_lower (s : string) :
  PyStr.lstrip (PyStr.lower s) = PyStr.lower (PyStr.lstrip s).
Proof.
  induction s as [|c s IH]; simpl; [reflexivity|].
  rewrite is_space_lower_ascii. destruct (PyStr.is_space c); [exact IH|].
  reflexivity.
Qed.

Lemma rstrip_lower (s : string) :
  PyStr.rstrip (PyStr.lower s) = PyStr.lower (PyStr.rstrip s).
Proof.
  induction s as [|c s IH]; simpl; [reflexivity|].
  rewrite IH, is_space_lower_ascii.
  destruct (PyStr.rstrip s); simpl; [|reflexivity].
  destruct (PyStr.is_space c); reflexivity.
Qed.

Lemma strip_lower (s : string) :
  PyStr.strip (PyStr.lower s) = PyStr.lower (PyStr.strip s).
Proof. unfold PyStr.strip. rewrite lstrip_lower, rstrip_lower. reflexivity. Qed.

Lemma lstrip_clean_head (s : string) : clean_head (PyStr.lstrip s).
Proof.
  induction s as [|c s IH]; simpl; [exact I|].
  destruct (PyStr.is_space c) eqn:E; [exact IH|exact E].
Qed.

Lemma lstrip_of_clean_head (s : string) : clean_head s -> PyStr.lstrip s = s.
Proof. destruct s as [|c s]; simpl; [reflexivity|]. intros ->. reflexivity. Qed.

Lemma rstrip_clean_head (s : string) :
  clean_head s -> clean_head (PyStr.rstrip s).
Proof.
  destruct s as [|c s]; simpl; [exact (fun H => H)|]. intros H.
  destruct (PyStr.rstrip s); [rewrite H|]; exact H.
Qed.

Lemma rstrip_idem (s : string) : PyStr.rstrip (PyStr.rstrip s) = PyStr.rstrip s.
Proof.
  induction s as [|c s IH]; simpl; [reflexivity|].
  destruct (PyStr.rstrip s) as [|d t] eqn:E.
  - destruct (PyStr.is_space c) eqn:Ec; simpl; [reflexivity|].
    rewrite Ec. reflexivity.
  - simpl in *. rewrite IH. reflexivity.
Qed.

Lemma strip_idem (s : string) : PyStr.strip (PyStr.strip s) = PyStr.strip s.
Proof.
  unfold PyStr.strip.
  rewrite (lstrip_of_clean_head (PyStr.rstrip (PyStr.lstrip s))).
  - apply rstrip_idem.
  - apply rstrip_clean_head, lstrip_clean_head.
Qed.

Lemma clean_idem (s : string) :
  PyStr.lower (PyStr.strip (PyStr.lower (PyStr.strip s)))
  = PyStr.lower (PyStr.strip s).
Proof. rewrite strip_lower, strip_idem, lower_idem. reflexivity. Qed.

(** X1. Normalising twice is normalising once: [_norm(_norm(a)) = _norm(a)]
    for [None] and for every string. *)
Theorem norm_idempotent (a : option string) :
  _norm (Some (_norm a)) = _norm a.
Proof.
  destruct a as [s|]; [|reflexivity]. unfold _norm.
  destruct (String.eqb_spec (PyStr.lower (PyStr.strip s)) "straight")
    as [E1|N1]; [reflexivity|].
  destruct (String.eqb_spec (PyStr.lower (PyStr.strip s)) "slow down")
    as [E2|N2]; [reflexivity|].
  rewrite clean_idem.
  destruct (String.eqb_spec (PyStr.lower (PyStr.strip s)) "straight");
    [contradiction|].
  destruct (String.eqb_spec (PyStr.lower (PyStr.strip s)) "slow down");
    [contradiction|reflexivity].
Qed.

(** X2. [_norm] never returns one of the two legacy spellings, ["straight"]
    and ["slow down"], whatever it is given. *)
Theorem norm_never_legacy (a : option string) :
  _norm a <> "straight" /\ _norm a <> "slow down".
Proof.
  destruct a as [s|]; [|split; discriminate]. unfold _norm.
  destruct (String.eqb_spec (PyStr.lower (PyStr.strip s)) "straight")
    as [E1|N1]; [split; discriminate|].
  destruct (String.eqb_spec (PyStr.lower (PyStr.strip s)) "slow down")
    as [E2|N2]; [split; discriminate|].
  split; assumption.
Qed.

(** X3. A string that, stripped and lower-cased, is one of the seven
    recognised spellings is sent to one of the five labels. *)
Theorem norm_recognized (s : string) :
  In (PyStr.lower (PyStr.strip s)) recognized -> In (_norm (Some s)) labels.
Proof.
  unfold _norm. intros H. simpl in H.
  repeat destruct H as [H|H]; try contradiction; rewrite <- H;
    cbn; auto 6.
Qed.

Lemma norm_recognized_witness : In (_norm (Some "  Slow Down ")) labels.
Proof.
  apply (norm_recognized "  Slow Down "). vm_compute. auto 8.
Defined.

(** ** [_riskify] and the effective risks *)

Lemma SFcompare_antisym (a b : spec_float) :
  SFcompare b a = option_map CompOpp (SFcompare a b).
Proof.
  destruct a as [sa|[|]| |[|] ma ea]; destruct b as [sb|[|]| |[|] mb eb];
    try reflexivity;
    unfold SFcompare, option_map;
    rewrite (Z.compare_antisym ea eb);
    change (Pos.compare_cont Eq ma mb) with (Pos.compare ma mb);
    change (Pos.compare_cont Eq mb ma) with (Pos.compare mb ma);
    rewrite (Pos.compare_antisym ma mb);
    destruct (ea ?= eb)%Z; try reflexivity;
    destruct (ma ?= mb)%positive; reflexivity.
Qed.

Lemma SFltb_asym (a b : spec_float) : SFltb a b = true -> SFltb b a = false.
Proof.
  unfold SFltb. rewrite (SFcompare_antisym a b).
  destruct (SFcompare a b) as [[| |]|]; simpl; congruence.
Qed.

Lemma SFleb_not_ltb (a b : spec_float) : SFleb a b = true -> SFltb b a = false.
Proof.
  unfold SFltb, SFleb. rewrite (SFcompare_antisym a b).
  destruct (SFcompare a b) as [[| |]|]; simpl; congruence.
Qed.

Lemma SFltb_false_leb (a b : spec_float) :
  a <> S754_nan -> b <> S754_nan -> SFltb a b = false -> SFleb b a = true.
Proof.
  unfold SFltb, SFleb. rewrite (SFcompare_antisym a b). intros Ha Hb.
  destruct (SFcompare a b) as [[| |]|] eqn:E; simpl; try congruence.
  destruct a as [?|[|]| |[|] ? ?]; destruct b as [?|[|]| |[|] ? ?];
    try discriminate E; congruence.
Qed.

Lemma SFltb_not_nan (a b : spec_float) :
  SFltb a b = true -> a <> S754_nan /\ b <> S754_nan.
Proof.
  destruct a as [?|[|]| |[|] ? ?]; destruct b as [?|[|]| |[|] ? ?];
    try discriminate; intros _; split; discriminate.
Qed.

Lemma SFleb_not_nan (a b : spec_float) :
  SFleb a b = true -> a <> S754_nan /\ b <> S754_nan.
Proof.
  destruct a as [?|[|]| |[|] ? ?]; destruct b as [?|[|]| |[|] ? ?];
    try discriminate; intros _; split; discriminate.
Qed.

(** The clamp of line 20, [min(max(v, 0.0), 1.0)]: a NaN or a float between
    [0.0] and [1.0], and a NaN only for a NaN. *)
Lemma clamp_range (v : float) :
  (PyFloat.min (PyFloat.max v f0_0) f1_0 = S754_nan \/
   (PyFloat.le f0_0 (PyFloat.min (PyFloat.max v f0_0) f1_0) = true /\
    PyFloat.le (PyFloat.min (PyFloat.max v f0_0) f1_0) f1_0 = true)) /\
  (PyFloat.min (PyFloat.max v f0_0) f1_0 = S754_nan <-> v = S754_nan).
Proof.
  unfold PyFloat.min, PyFloat.max, PyFloat.lt, PyFloat.gt, PyFloat.le.
  destruct (SFltb v f0_0) eqn:L0.
  - destruct (SFltb_not_nan _ _ L0) as [Hv _].
    change (SFltb f1_0 f0_0) with false. cbv iota.
    split; [right; split; reflexivity|].
    split; [discriminate|intros ->; congruence].
  - destruct (SFltb f1_0 v) eqn:L1.
    + destruct (SFltb_not_nan _ _ L1) as [_ Hv].
      split; [right; split; reflexivity|].
      split; [discriminate|intros ->; congruence].
    + destruct v as [s|s| |s m e] eqn:Ev;
        [| |split; [left|split]; reflexivity|];
        (split; [right; split; apply SFltb_false_leb; try discriminate;
                 assumption
                |split; discriminate]).
Qed.

(** A float between [0.0] and [1.0] passes the clamp unchanged. *)
Lemma clamp_fixed (v : float) :
  PyFloat.le f0_0 v = true -> PyFloat.le v f1_0 = true ->
  PyFloat.min (PyFloat.max v f0_0) f1_0 = v.
Proof.
  unfold PyFloat.le. intros H0 H1.
  unfold PyFloat.min, PyFloat.max, PyFloat.gt, PyFloat.lt.
  rewrite (SFleb_not_ltb _ _ H0), (SFleb_not_ltb _ _ H1). reflexivity.
Qed.

(** A Python integer never converts to a NaN. *)
Lemma float_of_int_not_nan (z : Z) : float_of_int z <> Some S754_nan.
Proof.
  unfold float_of_int. destruct (PyFloat.of_Z z) as [s|s| |s m e] eqn:Ez;
    try discriminate.
  exfalso. unfold PyFloat.of_Z in Ez.
  destruct z as [|p|p]; cbn [binary_normalize] in Ez; [discriminate| |].
  - pose proof (binary_round_nonneg PyFloat.prec PyFloat.emax prec_pos
                  prec_lt_emax p 0) as Hn.
    rewrite Ez in Hn. discriminate.
  - rewrite (binary_round_sign PyFloat.prec PyFloat.emax) in Ez.
    pose proof (binary_round_nonneg PyFloat.prec PyFloat.emax prec_pos
                  prec_lt_emax p 0) as Hn.
    destruct (binary_round PyFloat.prec PyFloat.emax false p 0);
      try discriminate.
Qed.

(** What [_riskify] returns is a NaN or lies between [0.0] and [1.0]. *)
Lemma riskify_unit (x : pyval) :
  _riskify x = S754_nan \/
  (PyFloat.le f0_0 (_riskify x) = true /\ PyFloat.le (_riskify x) f1_0 = true).
Proof.
  unfold _riskify. destruct (py_float x) as [v|].
  - apply clamp_range.
  - right. split; reflexivity.
Qed.

(** X4. [_riskify] never fails, and what it returns is a NaN or lies between
    [0.0] and [1.0]; it is a NaN only when it is given the float NaN. *)
Theorem riskify_range (x : pyval) :
  (_riskify x = S754_nan \/
   (PyFloat.le f0_0 (_riskify x) = true /\ PyFloat.le (_riskify x) f1_0 = true))
  /\ (_riskify x = S754_nan <-> x = VFloat S754_nan).
Proof.
  split; [apply riskify_unit|].
  unfold _riskify. destruct x as [f|z|]; cbn [py_float].
  - rewrite (proj2 (clamp_range f)).
    split; [intros ->; reflexivity|congruence].
  - pose proof (float_of_int_not_nan z) as Hz.
    destruct (float_of_int z) as [v|]; [|split; discriminate].
    rewrite (proj2 (clamp_range v)).
    split; [intros ->; exfalso; apply Hz; reflexivity|discriminate].
  - split; discriminate.
Qed.
(** X5. A value that [float] turns into a float between [0.0] and [1.0] is
    returned as that float, unchanged. *)
Theorem riskify_in_range (x : pyval) (v : float) :
  py_float x = Some v ->
  PyFloat.le f0_0 v = true -> PyFloat.le v f1_0 = true ->
  _riskify x = v.
Proof.
  unfold _riskify. intros ->. apply clamp_fixed.
Qed.

Lemma riskify_in_range_witness :
  _riskify (pct 30) = S754_finite false 5404319552844595 (-54).
Proof.
  apply (riskify_in_range (pct 30)); reflexivity.
Defined.

(** X6. Coercing a coerced risk changes nothing. *)
Theorem riskify_idempotent (x : pyval) :
  _riskify (VFloat (_riskify x)) = _riskify x.
Proof.
  destruct (riskify_unit x) as [E|[H0 H1]].
  - rewrite E. reflexivity.
  - unfold _riskify at 1. cbn [py_float]. apply clamp_fixed; assumption.
Qed.

(** The clamp of lines 54-55, [min(1.0, a)], is at most [1.0]. *)
Lemma min_one_le (a : float) : PyFloat.le (PyFloat.min f1_0 a) f1_0 = true.
Proof.
  unfold PyFloat.le, PyFloat.min, PyFloat.lt.
  destruct (SFltb a f1_0) eqn:E; [apply SFltb_leb; assumption|reflexivity].
Qed.

(** X7. Whatever the two risks are, NaN included, the effective risks of
    lines 54-55 are floats that are at most [1.0]; none is a NaN. *)
Theorem effective_risks_bounded (l r : float) (s : Z) (le re : float) :
  effective_risks l r s = Some (le, re) ->
  PyFloat.le le f1_0 = true /\ PyFloat.le re f1_0 = true.
Proof.
  unfold effective_risks. destruct (speed_penalty s) as [p|]; [|discriminate].
  intros H. inversion H. subst le re. clear H.
  split; apply min_one_le.
Qed.

Lemma effective_risks_bounded_witness :
  PyFloat.le (S754_finite false 5854679515581645 (-54)) f1_0 = true /\
  PyFloat.le (S754_finite false 5629499534213120 (-53)) f1_0 = true.
Proof.
  apply (effective_risks_bounded (left_r ex1) (right_r ex1) (speed ex1)).
  vm_compute. reflexivity.
Defined.

(** ** Speeds that convert to a float *)






(** ** What each branch can return *)

(** The deontological branch, lines 90-98, returns one of two labels. *)
Lemma deon_branch_labels (mode : string) (data : scenario) (a : string) :
  PyStr.startswith (PyStr.lower mode) "util" = false ->
  PyStr.startswith (PyStr.lower mode) "deon" = true ->
  decide_action mode data = Returns a ->
  a = "brake" \/ a = "hold_lane".
Proof.
  intros Hutil Hdeon. unfold decide_action. rewrite Hutil, Hdeon.
  destruct (effective_risks _ _ _) as [[le re]|]; [|discriminate].
  repeat match goal with
         | |- context [if ?c then _ else _] => destruct c
         end;
    intros H; inversion H; auto.
Qed.

(** X9. In a mode whose lower-case form starts with ["deon"], a returned
    decision is ["brake"] or ["hold_lane"], nothing else. *)
Theorem deontological_range (mode : string) (data : scenario) (a : string) :
  PyStr.startswith (PyStr.lower mode) "deon" = true ->
  decide_action mode data = Returns a ->
  a = "brake" \/ a = "hold_lane".
Proof.
  intros Hdeon. apply deon_branch_labels; [|exact Hdeon].
  destruct (PyStr.startswith (PyStr.lower mode) "util") eqn:E; [|reflexivity].
  apply startswith_util_not_deon in E. congruence.
Qed.

Lemma deontological_range_witness :
  "hold_lane" = "brake" \/ "hold_lane" = "hold_lane".
Proof.
  apply (deontological_range "deontological" ex1 "hold_lane").
  - reflexivity.
  - vm_compute. reflexivity.
Defined.





(** ** Which side a swerve goes to *)

Lemma SFltb_neg_intro (m1 m2 : positive) (e1 e2 : Z) :
  e2 < e1 \/ (e1 = e2 /\ Zpos m2 < Zpos m1) ->
  SFltb (S754_finite true m1 e1) (S754_finite true m2 e2) = true.
Proof.
  intros H. unfold SFltb, SFcompare.
  destruct (Z.compare_spec e1 e2) as [He|He|He]; try reflexivity; try lia.
  change (Pos.compare_cont Eq m1 m2) with (Pos.compare m1 m2).
  destruct (Pos.compare_spec m1 m2) as [Hm|Hm|Hm]; try reflexivity; lia.
Qed.

Lemma SFltb_neg_elim (m1 m2 : positive) (e1 e2 : Z) :
  SFltb (S754_finite true m1 e1) (S754_finite true m2 e2) = true ->
  e2 < e1 \/ (e1 = e2 /\ Zpos m2 < Zpos m1).
Proof.
  unfold SFltb, SFcompare.
  destruct (Z.compare_spec e1 e2) as [He|He|He]; try discriminate; try lia.
  change (Pos.compare_cont Eq m1 m2) with (Pos.compare m1 m2).
  destruct (Pos.compare_spec m1 m2) as [Hm|Hm|Hm]; try discriminate; lia.
Qed.

Lemma SFleb_neg_elim (m1 m2 : positive) (e1 e2 : Z) :
  SFleb (S754_finite true m1 e1) (S754_finite true m2 e2) = true ->
  e2 < e1 \/ (e1 = e2 /\ Zpos m2 <= Zpos m1).
Proof.
  unfold SFleb, SFcompare.
  destruct (Z.compare_spec e1 e2) as [He|He|He]; try discriminate; try lia.
  change (Pos.compare_cont Eq m1 m2) with (Pos.compare m1 m2).
  destruct (Pos.compare_spec m1 m2) as [Hm|Hm|Hm]; try discriminate; lia.
Qed.

(** [a < b] and [b <= c] give [a < c]. *)
Lemma SFltb_leb_trans (a b c : spec_float) :
  SFltb a b = true -> SFleb b c = true -> SFltb a c = true.
Proof.
  destruct a as [sa|[|]| |[|] ma ea]; destruct b as [sb|[|]| |[|] mb eb];
    try discriminate;
    destruct c as [sc|[|]| |[|] mc ec];
    try reflexivity; try discriminate; intros Hab Hbc.
  - apply SFltb_neg_elim in Hab. apply SFleb_neg_elim in Hbc.
    apply SFltb_neg_intro. lia.
  - apply SFltb_finite_elim in Hab. apply SFleb_finite_elim in Hbc.
    apply SFltb_finite_intro. lia.
Qed.

(** The difference of two finite floats is the rounding of the exact
    difference. *)
Lemma SFsub_finite (sx sy : bool) (mx my : positive) (ex ey c : Z) :
  c <= ex -> c <= ey ->
  exists S,
    PyFloat.sub (S754_finite sx mx ex) (S754_finite sy my ey)
    = binary_normalize PyFloat.prec PyFloat.emax S (Z.min ex ey) false /\
    S * 2 ^ (Z.min ex ey - c)
    = cond_Zopp sx (Zpos mx) * 2 ^ (ex - c)
      - cond_Zopp sy (Zpos my) * 2 ^ (ey - c).
Proof.
  intros Hx Hy. unfold PyFloat.sub. cbn [SFsub]. set (ez := Z.min ex ey).
  eexists. split; [reflexivity|].
  rewrite !shl_align_fst by (unfold ez; lia).
  replace (ex - c) with ((ex - ez) + (ez - c)) by lia.
  replace (ey - c) with ((ey - ez) + (ez - c)) by lia.
  rewrite !Z.pow_add_r by (unfold ez; lia).
  destruct sx, sy; cbn [cond_Zopp]; ring.
Qed.

(** Taking a positive finite float away does not make a float larger. *)
Lemma sub_positive_le (r : float) (md : positive) (ed : Z) :
  PyFloat.valid r = true ->
  bounded PyFloat.prec PyFloat.emax md ed = true ->
  PyFloat.sub r (S754_finite false md ed) = S754_nan \/
  SFleb (PyFloat.sub r (S754_finite false md ed)) r = true.
Proof.
  intros Vr Vd.
  pose proof (emin_le_canonical _ _ md ed Vd) as Hed.
  destruct r as [s|s| |s m e].
  - right. reflexivity.
  - right. destruct s; reflexivity.
  - left. reflexivity.
  - right. unfold PyFloat.valid in Vr. cbn [valid_binary] in Vr.
    pose proof (emin_le_canonical _ _ m e Vr) as He.
    destruct (SFsub_finite s false m md e ed
                (emin PyFloat.prec PyFloat.emax)) as (S & -> & HS);
      try assumption.
    rewrite (finite_as_normalize _ _ prec_pos prec_lt_emax s m e Vr).
    apply (binary_normalize_mono _ _ prec_pos prec_lt_emax)
      with (c := emin PyFloat.prec PyFloat.emax); try lia.
    rewrite HS. cbn [cond_Zopp].
    pose proof (pow2_pos (ed - emin PyFloat.prec PyFloat.emax) ltac:(lia)).
    nia.
Qed.

(** [a < b - 0.15] gives [a < b]. *)
Lemma lt_sub_diff (a b : float) :
  PyFloat.valid b = true ->
  PyFloat.lt a (PyFloat.sub b MEANINGFUL_DIFF) = true ->
  PyFloat.lt a b = true.
Proof.
  unfold PyFloat.lt. intros Vb H.
  destruct (sub_positive_le b 5404319552844595 (-55) Vb eq_refl) as [E|Hle].
  - change (S754_finite false 5404319552844595 (-55)) with MEANINGFUL_DIFF in E.
    rewrite E in H. destruct (SFltb_not_nan _ _ H) as [_ Hn]. congruence.
  - apply (SFltb_leb_trans a _ b H). exact Hle.
Qed.

Lemma SFadd_valid (x y : float) :
  PyFloat.valid x = true -> PyFloat.valid y = true ->
  PyFloat.valid (PyFloat.add x y) = true.
Proof.
  unfold PyFloat.valid, PyFloat.add.
  destruct x as [sx|sx| |sx mx ex]; destruct y as [sy|sy| |sy my ey];
    intros Vx Vy; cbn [SFadd];
    try assumption; try reflexivity;
    try (destruct sx, sy; reflexivity).
  apply (binary_normalize_valid _ _ prec_pos prec_lt_emax).
Qed.

Lemma risk_of_valid (field : option pyval) :
  valid_risk field = true -> PyFloat.valid (risk_of field) = true.
Proof.
  intros H. destruct (risk_of_range field H) as [->|[_ V]];
    [reflexivity|exact V].
Qed.

(** The effective risks are binary64 numbers in canonical form. *)
Lemma effective_risks_valid (l r : float) (s : Z) (le re : float) :
  PyFloat.valid l = true -> PyFloat.valid r = true ->
  effective_risks l r s = Some (le, re) ->
  PyFloat.valid le = true /\ PyFloat.valid re = true.
Proof.
  intros Vl Vr. unfold effective_risks.
  destruct (speed_penalty s) as [p|] eqn:Hp; [|discriminate].
  pose proof (speed_penalty_valid s p Hp) as Vp.
  intros H. inversion H. subst le re. clear H.
  unfold PyFloat.min.
  split.
  - destruct (PyFloat.lt _ _); [apply SFadd_valid; assumption|reflexivity].
  - destruct (PyFloat.lt _ _); [apply SFadd_valid; assumption|reflexivity].
Qed.

Lemma veto_left_fires (le re : float) (b : string) :
  PyFloat.gt le re = true -> veto_left 1 le re b <> "swerve_left".
Proof.
  intros H. unfold veto_left. rewrite H. cbn [Z.eqb Pos.eqb andb].
  destruct (String.eqb_spec b "swerve_left"); [discriminate|assumption].
Qed.

Lemma veto_right_keeps (c : Z) (le re : float) (b x : string) :
  x <> "brake" -> b <> x -> veto_right c le re b <> x.
Proof.
  intros Hx Hb. unfold veto_right.
  destruct (_ && _ && _)%bool; [congruence|assumption].
Qed.

Lemma veto_right_fires (le re : float) (b : string) :
  PyFloat.gt re le = true -> veto_right 1 le re b <> "swerve_right".
Proof.
  intros H. unfold veto_right. rewrite H. cbn [Z.eqb Pos.eqb andb].
  destruct (String.eqb_spec b "swerve_right"); [discriminate|assumption].
Qed.

(** X12. With a child present and the risks of the scenario binary64
    numbers, no mode returns a swerve towards the side whose effective risk
    is strictly the greater: not ["swerve_left"] when
    [left_eff > right_eff], not ["swerve_right"] when
    [right_eff > left_eff]. *)
Theorem child_veto (mode : string) (data : scenario) (le re : float)
        (a : string) :
  valid_risk (left_risk data) = true ->
  valid_risk (right_risk data) = true ->
  child data = 1 ->
  effective_risks (left_r data) (right_r data) (speed data) = Some (le, re) ->
  decide_action mode data = Returns a ->
  (PyFloat.gt le re = true -> a <> "swerve_left") /\
  (PyFloat.gt re le = true -> a <> "swerve_right").
Proof.
  intros Vl Vr Hchild Heff.
  destruct (effective_risks_valid _ _ _ _ _
              (risk_of_valid _ Vl) (risk_of_valid _ Vr) Heff) as [Vle Vre].
  unfold decide_action. rewrite Heff, Hchild.
  destruct (_ || _)%bool; [intros H; inversion H; split; discriminate|].
  destruct (PyStr.startswith (PyStr.lower mode) "util").
  - destruct (_ && _)%bool; [intros H; inversion H; split; discriminate|].
    destruct (PyFloat.lt le (PyFloat.sub re MEANINGFUL_DIFF)) eqn:L.
    { intros H; inversion H. split; [|discriminate].
      intros Hgt _. apply lt_sub_diff in L; [|assumption].
      unfold PyFloat.gt in Hgt. unfold PyFloat.lt in L.
      rewrite (SFltb_asym _ _ L) in Hgt. discriminate. }
    destruct (PyFloat.lt re (PyFloat.sub le MEANINGFUL_DIFF)) eqn:R.
    { intros H; inversion H. split; [discriminate|].
      intros Hgt _. apply lt_sub_diff in R; [|assumption].
      unfold PyFloat.gt in Hgt. unfold PyFloat.lt in R.
      rewrite (SFltb_asym _ _ R) in Hgt. discriminate. }
    destruct (PyFloat.ge _ HIGH_SIDE_RISK);
      [intros H; inversion H; split; discriminate|].
    intros H; inversion H. split; intros Hgt.
    + apply veto_right_keeps; [discriminate|].
      apply veto_left_fires. assumption.
    + apply veto_right_fires. assumption.
  - destruct (PyStr.startswith (PyStr.lower mode) "deon").
    + repeat match goal with
             | |- context [if ?c then _ else _] => destruct c
             end;
        intros H; inversion H; split; discriminate.
    + cbn [Z.eqb Pos.eqb orb]. intros H; inversion H; split; discriminate.
Qed.

Lemma child_veto_witness :
  decide_action "utilitarian" child_left = Returns "brake" /\
  "brake" <> "swerve_left".
Proof.
  split; [vm_compute; reflexivity|].
  apply (child_veto "utilitarian" child_left
           (S754_finite false 4503599627370496 (-53))
           (S754_finite false 8106479329266893 (-54)) "brake");
    vm_compute; reflexivity.
Defined.




Lemma vetoed_base_not_swerve_right (mode : string) (data : scenario)
      (c : Z) (le re : float) :
  veto_right c le re (veto_left c le re (_base_decision mode data))
  <> "swerve_right".
Proof.
  apply veto_right_keeps; [discriminate|]. unfold veto_left.
  destruct (_ && _ && _)%bool; [discriminate|].
  destruct (base_decision_cases mode data) as [H|[H|[H|H]]]; rewrite H;
    discriminate.
Qed.

(** X14. In a mode whose lower-case form starts with ["util"], and the risks
    of the scenario binary64 numbers, ["swerve_right"] is returned only when
    the right effective risk is strictly below the left one. *)
Theorem utilitarian_swerve_right (mode : string) (data : scenario)
        (le re : float) :
  PyStr.startswith (PyStr.lower mode) "util" = true ->
  valid_risk (left_risk data) = true ->
  valid_risk (right_risk data) = true ->
  effective_risks (left_r data) (right_r data) (speed data) = Some (le, re) ->
  decide_action mode data = Returns "swerve_right" ->
  PyFloat.lt re le = true.
Proof.
  intros Hu Vl Vr Heff.
  destruct (effective_risks_valid _ _ _ _ _
              (risk_of_valid _ Vl) (risk_of_valid _ Vr) Heff) as [Vle Vre].
  unfold decide_action. rewrite Hu, Heff.
  destruct (_ || _)%bool; [discriminate|].
  destruct (_ && _)%bool; [discriminate|].
  destruct (PyFloat.lt le (PyFloat.sub re MEANINGFUL_DIFF)); [discriminate|].
  destruct (PyFloat.lt re (PyFloat.sub le MEANINGFUL_DIFF)) eqn:R.
  - intros _. apply lt_sub_diff in R; assumption.
  - destruct (PyFloat.ge _ HIGH_SIDE_RISK); [discriminate|].
    intros H. inversion H as [H'].
    exfalso. exact (vetoed_base_not_swerve_right _ _ _ _ _ H').
Qed.

Lemma utilitarian_swerve_right_witness :
  PyFloat.lt (S754_finite false 7205759403792794 (-56))
             (S754_finite false 5404319552844595 (-54)) = true.
Proof.
  apply (utilitarian_swerve_right "utilitarian" calm_right
           (S754_finite false 5404319552844595 (-54))
           (S754_finite false 7205759403792794 (-56)));
    vm_compute; reflexivity.
Defined.

(** ** Missing keys *)

(** X15. A dictionary that holds nothing but [name] is decided without an
    error, on the defaults of lines 48-51: ["hold_lane"] in every mode whose
    lower-case form does not start with ["deon"]; in the mode
    ["deontological"], ["brake"] for the three known names and
    ["hold_lane"] for any other. *)
Theorem name_only (mode n : string) :
  (PyStr.startswith (PyStr.lower mode) "deon" = false ->
   decide_action mode (mkScenario n None None None None)
   = Returns "hold_lane") /\
  (PyStr.lower mode = "deontological" ->
   decide_action mode (mkScenario n None None None None)
   = Returns (if ((n =? "car_vs_pedestrian") || (n =? "car_vs_car")
                  || (n =? "pedestrian_vs_pedestrian"))%bool
              then "brake" else "hold_lane")).
Proof.
  split.
  - intros Hd. unfold decide_action. rewrite Hd.
    change (effective_risks
              (left_r (mkScenario n None None None None))
              (right_r (mkScenario n None None None None))
              (speed (mkScenario n None None None None)))
      with (Some (f0_0, f0_0)).
    cbv beta iota zeta.
    change (PyFloat.ge (PyFloat.add f0_0 f0_0) VERY_HIGH_TOTAL
            || (speed (mkScenario n None None None None) >=? HIGH_SPEED)%Z)%bool
      with false.
    cbv iota.
    destruct (PyStr.startswith (PyStr.lower mode) "util"); reflexivity.
  - intros Hm. unfold decide_action. rewrite Hm.
    change (PyStr.startswith "deontological" "util") with false.
    change (PyStr.startswith "deontological" "deon") with true.
    change (effective_risks
              (left_r (mkScenario n None None None None))
              (right_r (mkScenario n None None None None))
              (speed (mkScenario n None None None None)))
      with (Some (f0_0, f0_0)).
    cbv beta iota zeta.
    change (PyFloat.ge (PyFloat.add f0_0 f0_0) VERY_HIGH_TOTAL
            || (speed (mkScenario n None None None None) >=? HIGH_SPEED)%Z)%bool
      with false.
    change (child (mkScenario n None None None None)) with 0.
    unfold veto_left, veto_right, _base_decision,
      ethics_engine.deontological_decision.
    cbn [name Z.eqb andb].
    change ("deontological" =? "utilitarian") with false.
    change ("deontological" =? "deontological") with true.
    cbv iota.
    destruct (n =? "car_vs_pedestrian"); [reflexivity|].
    destruct (n =? "car_vs_car"); [reflexivity|].
    destruct (n =? "pedestrian_vs_pedestrian"); reflexivity.
Qed.

Lemma name_only_witness :
  decide_action "Virtue" (mkScenario "car_vs_car" None None None None)
  = Returns "hold_lane" /\
  decide_action "DEONTOLOGICAL" (mkScenario "car_vs_car" None None None None)
  = Returns "brake".
Proof.
  split.
  - apply (name_only "Virtue" "car_vs_car"). reflexivity.
  - apply (proj2 (name_only "DEONTOLOGICAL" "car_vs_car")). reflexivity.
Defined.

(** ** Two risky sides *)











(** * Properties of the other scripts *)

(** ** The labelling loop of [label_data.py] *)





(** X18. The column built for the mode ["deontological"] holds no other
    label than ["brake"] and ["hold_lane"]. *)
Theorem label_rows_deontological (rows : list scenario)
        (actions : list string) :
  label_rows "deontological" rows [] = Labelled actions ->
  Forall (fun a => a = "brake" \/ a = "hold_lane") actions.
Proof.
  assert (G : forall rows acc actions,
             Forall (fun a => a = "brake" \/ a = "hold_lane") acc ->
             label_rows "deontological" rows acc = Labelled actions ->
             Forall (fun a => a = "brake" \/ a = "hold_lane") actions).
  { clear. induction rows as [|row rows IH]; intros acc actions Hacc H.
    - inversion H. subst. exact Hacc.
    - cbn [label_rows] in H.
      destruct (decide_action "deontological" row) as [a|e] eqn:Ha;
        [|discriminate].
      apply (IH (acc ++ [a])%list actions); [|exact H].
      apply Forall_app. split; [exact Hacc|].
      constructor; [|constructor].
      apply (deon_branch_labels "deontological" row a);
        [reflexivity|reflexivity|exact Ha]. }
  apply G. constructor.
Qed.

Lemma label_rows_deontological_witness :
  Forall (fun a => a = "brake" \/ a = "hold_lane") ["hold_lane"; "brake"].
Proof.
  apply (label_rows_deontological [ex1; ex4]). vm_compute. reflexivity.
Defined.


(** ** The control chain of [simulation.py] *)

(** X20. Whatever rule [simulation.py] looks up and whatever the scenario,
    the decision never takes the [swerve_right] branch of the control chain,
    and it takes the final [else] branch exactly when the scenario name is
    none of the three known names. *)
Theorem simulation_never_steers_right (ethical_mode : string)
        (scenario_input : scenario) (decision : string) :
  simulation_decision ethical_mode scenario_input = Some decision ->
  manoeuvre_of decision <> SteerRight /\
  (manoeuvre_of decision = Straight <->
   Spec.kind_of_name (name scenario_input) = Spec.Unknown).
Proof.
  unfold simulation_decision, Spec.kind_of_name,
    ethics_engine.utilitarian_decision, ethics_engine.deontological_decision,
    ethics_engine.virtue_ethics_decision.
  destruct (ethical_mode =? "utilitarian");
    [|destruct (ethical_mode =? "deontological");
      [|destruct (ethical_mode =? "virtue"); [|discriminate]]];
    (destruct (name scenario_input =? "car_vs_pedestrian");
     [|destruct (name scenario_input =? "car_vs_car");
       [|destruct (name scenario_input =? "pedestrian_vs_pedestrian")]]);
    intros H; inversion H; cbn;
    (split; [discriminate|split; intros; first [reflexivity|discriminate]]).
Qed.

Lemma simulation_never_steers_right_witness :
  manoeuvre_of "brake" <> SteerRight /\
  (manoeuvre_of "brake" = Straight <->
   Spec.kind_of_name (name ex5) = Spec.Unknown).
Proof.
  apply (simulation_never_steers_right "virtue" ex5 "brake"). reflexivity.
Defined.

(** ** The vehicle commands of [simulation.py] *)



(** X22. Whatever the decision string, a control applied with the brake at
    [1.0] has the throttle at [0.0] and the wheel straight, provided the
    control the script starts from is not braking. *)
Theorem brakes_without_steering (d : VehicleControl) (decision : string)
        (c : VehicleControl) :
  brake d <> f1_0 ->
  In (apply_control c) (vehicle_commands d decision) ->
  brake c = f1_0 ->
  throttle c = f0_0 /\ steer c = f0_0.
Proof.
  intros Hd. unfold vehicle_commands, final_control, control_chain.
  destruct (decision =? "swerve_left");
    [|destruct (decision =? "swerve_right");
      [|destruct (decision =? "brake");
        [|destruct (decision =? "slow down")]]];
    cbn [fst snd app In]; intros Hc;
    repeat match goal with
           | H : _ \/ _ |- _ => destruct H
           | H : False |- _ => destruct H
           | H : apply_control _ = apply_control _ |- _ =>
               inversion H; clear H
           | H : sleep _ = apply_control _ |- _ => discriminate H
           end;
    subst; cbn [brake throttle steer]; intros Hb;
    solve [split; reflexivity | contradiction].
Qed.

Lemma brakes_without_steering_witness :
  throttle (mkControl f0_0 f0_0 f1_0) = f0_0 /\
  steer (mkControl f0_0 f0_0 f1_0) = f0_0.
Proof.
  apply (brakes_without_steering released "slow down").
  - discriminate.
  - right. right. left. reflexivity.
  - reflexivity.
Defined.

(** X23. The control that line 157 applies last is a braking one exactly for
    the decision ["brake"]: after ["slow down"] the stop of line 151 is
    followed by the control the script started from, untouched. *)
Theorem final_control_brakes (d : VehicleControl) (decision : string) :
  brake d <> f1_0 ->
  (brake (final_control d decision) = f1_0 <-> decision = "brake") /\
  (decision = "slow down" -> final_control d decision = d).
Proof.
  intros Hd. unfold final_control, control_chain.
  destruct (String.eqb_spec decision "swerve_left") as [->|_];
    [split; [split; [contradiction|discriminate]|discriminate]|].
  destruct (String.eqb_spec decision "swerve_right") as [->|_];
    [split; [split; [contradiction|discriminate]|discriminate]|].
  destruct (String.eqb_spec decision "brake") as [->|Hn];
    [split; [split; reflexivity|discriminate]|].
  destruct (String.eqb_spec decision "slow down") as [->|Hs]; cbn [snd brake].
  - split; [split; [contradiction|discriminate]|reflexivity].
  - split; [split; contradiction|contradiction].
Qed.

Lemma final_control_brakes_witness :
  (brake (final_control released "slow down") = f1_0
   <-> "slow down" = "brake") /\
  ("slow down" = "slow down" -> final_control released "slow down" = released).
Proof.
  apply (final_control_brakes released "slow down"). discriminate.
Defined.

(** ** The reporting rules and their log *)

(** X24. The log of [run_simulation.py] has three rows for each scenario;
    a row holds ["swerve"], ["brake"] or ["slow down"], ["swerve"] only in a
    utilitarian row of [car_vs_car], ["slow down"] only in a virtue row, and
    a deontological row holds ["brake"]. *)
Theorem decision_log_rows (scenarios : list scenario) :
  length (decision_log scenarios) = (3 * length scenarios)%nat /\
  forall n m dec, In (n, m, dec) (decision_log scenarios) ->
    In dec ["swerve"; "brake"; "slow down"] /\
    (dec = "swerve" -> m = "utilitarian" /\ n = "car_vs_car") /\
    (dec = "slow down" -> m = "virtue") /\
    (m = "deontological" -> dec = "brake").
Proof.
  split.
  - unfold decision_log.
    induction scenarios as [|s l IH]; [reflexivity|].
    cbn [flat_map]. rewrite length_app, length_map, IH.
    cbn [ethics length]. lia.
  - intros n m dec H. unfold decision_log in H.
    apply in_flat_map in H. destruct H as (s & _ & H).
    unfold ethics in H. cbn [map In fst snd] in H.
    unfold ethics_logic_reporting.utilitarian_decision,
      ethics_logic_reporting.deontological_decision,
      ethics_logic_reporting.virtue_ethics_decision in H.
    destruct H as [H|[H|[H|[]]]]; inversion H; subst; clear H.
    + destruct (String.eqb_spec (name s) "car_vs_car") as [E|E].
      * split; [left; reflexivity|].
        split; [intros _; split; [reflexivity|exact E]|].
        split; discriminate.
      * split; [right; left; reflexivity|].
        split; [discriminate|]. split; discriminate.
    + split; [right; left; reflexivity|].
      split; [discriminate|]. split; [discriminate|reflexivity].
    + destruct ((name s =? "car_vs_car")
                || (name s =? "pedestrian_vs_pedestrian"))%bool.
      * split; [right; right; left; reflexivity|].
        split; [discriminate|]. split; [reflexivity|discriminate].
      * split; [right; left; reflexivity|].
        split; [discriminate|]. split; discriminate.
Qed.

(** X25. Where the rules of [ethics_logic_reporting.py] and those of
    [ethics_engine.py] give the same label: the utilitarian ones only for
    [pedestrian_vs_pedestrian], the deontological ones for the three known
    names, the virtue ones only for [car_vs_car]. *)
Theorem reporting_agrees_with_engine (s : scenario) :
  (ethics_logic_reporting.utilitarian_decision s
   = ethics_engine.utilitarian_decision s
   <-> name s = "pedestrian_vs_pedestrian") /\
  (ethics_logic_reporting.deontological_decision s
   = ethics_engine.deontological_decision s
   <-> Spec.kind_of_name (name s) <> Spec.Unknown) /\
  (ethics_logic_reporting.virtue_ethics_decision s
   = ethics_engine.virtue_ethics_decision s
   <-> name s = "car_vs_car").
Proof.
  unfold ethics_logic_reporting.utilitarian_decision,
    ethics_logic_reporting.deontological_decision,
    ethics_logic_reporting.virtue_ethics_decision,
    ethics_engine.utilitarian_decision, ethics_engine.deontological_decision,
    ethics_engine.virtue_ethics_decision, Spec.kind_of_name.
  destruct (String.eqb_spec (name s) "car_vs_pedestrian") as [E1|N1].
  - rewrite E1. cbn.
    split; [split; discriminate|].
    split; [split; [discriminate|reflexivity]|split; discriminate].
  - destruct (String.eqb_spec (name s) "car_vs_car") as [E2|N2].
    + rewrite E2. cbn.
      split; [split; discriminate|].
      split; [split; [discriminate|reflexivity]|split; reflexivity].
    + destruct (String.eqb_spec (name s) "pedestrian_vs_pedestrian")
        as [E3|N3]; cbn.
      * rewrite E3.
        split; [split; reflexivity|].
        split; [split; [discriminate|reflexivity]|split; discriminate].
      * split; [split; [discriminate|contradiction]|].
        split; [split; [discriminate|intros H; exfalso; apply H; reflexivity]|].
        split; [discriminate|contradiction].
Qed.

(** ** The specificity of [metrics_runner.py] *)

Lemma int64_small (z : Z) :
  (- 2 ^ 63 <= z < 2 ^ 63)%Z -> metrics_runner.int64 z = z.
Proof.
  intros H. unfold metrics_runner.int64.
  rewrite Z.mod_small; lia.
Qed.

Lemma sum_nonneg (l : list Z) :
  Forall (fun x => 0 <= x)%Z l -> (0 <= fold_right Z.add 0 l)%Z.
Proof.
  induction 1 as [|x l Hx _ IH]; cbn [fold_right]; lia.
Qed.

Lemma nth_le_sum (l : list Z) (k : nat) :
  Forall (fun x => 0 <= x)%Z l ->
  (0 <= nth k l 0 <= fold_right Z.add 0 l)%Z.
Proof.
  intros H. revert k.
  induction H as [|x l Hx Hl IH]; intros [|k]; cbn [nth fold_right];
    try lia.
  - pose proof (sum_nonneg l Hl). lia.
  - specialize (IH k). lia.
Qed.

Lemma sum_concat (cm : list (list Z)) :
  fold_right Z.add 0%Z (concat cm)
  = fold_right Z.add 0%Z (map (fold_right Z.add 0%Z) cm).
Proof.
  induction cm as [|r cm IH]; [reflexivity|].
  cbn [concat map fold_right]. rewrite <- IH. clear IH.
  induction r as [|x r IH]; cbn [app fold_right]; lia.
Qed.

Lemma sum_map_sub {A : Type} (f g : A -> Z) (l : list A) :
  fold_right Z.add 0%Z (map (fun a => f a - g a)%Z l)
  = (fold_right Z.add 0 (map f l) - fold_right Z.add 0 (map g l))%Z.
Proof.
  induction l as [|a l IH]; cbn [map fold_right]; lia.
Qed.

(** The counts of one class as plain sums: nothing wraps around. *)
Lemma counts_exact (cm : list (list Z)) (k : nat) :
  metrics_runner.confusion cm ->
  let n := metrics_runner.total cm in
  let r := fold_right Z.add 0%Z (metrics_runner.row cm k) in
  let c := fold_right Z.add 0%Z (metrics_runner.column cm k) in
  let t := metrics_runner.TP cm k in
  (0 <= t <= r /\ t <= c /\ r + c - t <= n)%Z /\
  metrics_runner.FP cm k = (c - t)%Z /\
  metrics_runner.FN cm k = (r - t)%Z /\
  metrics_runner.TN cm k = (n - (r + c - t))%Z.
Proof.
  intros (_ & Hpos & Hn) n r c t.
  assert (Hrow : Forall (fun x => 0 <= x)%Z (metrics_runner.row cm k)).
  { unfold metrics_runner.row.
    destruct (Nat.lt_ge_cases k (length cm)) as [Hk|Hk].
    - apply (proj1 (Forall_forall _ _) Hpos). apply nth_In. exact Hk.
    - rewrite nth_overflow by exact Hk. constructor. }
  assert (Ht : (0 <= t <= r)%Z) by (apply nth_le_sum; exact Hrow).
  set (h := fun x : list Z => (fold_right Z.add 0 x - nth k x 0)%Z).
  assert (Hh : Forall (fun x => 0 <= x)%Z (map h cm)).
  { apply Forall_map. apply (Forall_impl _ (P := Forall (fun x => 0 <= x)%Z));
      [|exact Hpos].
    intros x Hx. unfold h. pose proof (nth_le_sum x k Hx). lia. }
  assert (Hk : (nth k (map h cm) 0 <= fold_right Z.add 0 (map h cm))%Z)
    by (apply nth_le_sum; exact Hh).
  assert (E0 : h [] = 0%Z) by (unfold h; destruct k; reflexivity).
  rewrite <- E0 in Hk at 1. rewrite map_nth in Hk.
  unfold h in Hk at 2. rewrite sum_map_sub in Hk.
  rewrite <- sum_concat in Hk.
  fold (metrics_runner.row cm k) in Hk. unfold h in Hk.
  fold (metrics_runner.TP cm k) in Hk. fold (metrics_runner.total cm) in Hk.
  fold (metrics_runner.column cm k) in Hk. fold n r c t in Hk.
  assert (Hc : (t <= c)%Z).
  { assert (Hcol : Forall (fun x => 0 <= x)%Z (metrics_runner.column cm k)).
    { apply Forall_map.
      apply (Forall_impl _ (P := Forall (fun x => 0 <= x)%Z)); [|exact Hpos].
      intros x Hx. apply (nth_le_sum x k Hx). }
    pose proof (nth_le_sum _ k Hcol) as H0. fold c in H0.
    assert (E1 : nth k ([] : list Z) 0%Z = 0%Z) by (destruct k; reflexivity).
    pose proof (map_nth (fun r0 : list Z => nth k r0 0%Z) cm [] k) as M.
    cbn beta in M. rewrite E1 in M.
    unfold metrics_runner.column in H0. rewrite M in H0.
    exact (proj2 H0). }
  assert (Hb : (0 <= t <= r /\ t <= c /\ r + c - t <= n)%Z) by lia.
  split; [exact Hb|]. fold n in Hn.
  assert (EFP : metrics_runner.FP cm k = (c - t)%Z).
  { unfold metrics_runner.FP, metrics_runner.sum. fold c t.
    rewrite (int64_small c) by lia. apply int64_small. lia. }
  assert (EFN : metrics_runner.FN cm k = (r - t)%Z).
  { unfold metrics_runner.FN, metrics_runner.sum. fold r t.
    rewrite (int64_small r) by lia. apply int64_small. lia. }
  split; [exact EFP|]. split; [exact EFN|].
  unfold metrics_runner.TN, metrics_runner.sum.
  rewrite EFP, EFN. fold (metrics_runner.total cm). fold n t.
  rewrite (int64_small n) by lia.
  rewrite (int64_small (t + (c - t))) by lia.
  rewrite (int64_small (t + (c - t) + (r - t))) by lia.
  rewrite int64_small by lia. lia.
Qed.

(** X26. For a confusion matrix of counts, fewer than [2^63] in all, the
    four numbers of lines 68-71 are not negative and add up to the number
    of samples, and [TN + FP] is the number of samples outside row [k]. *)
Theorem confusion_counts (cm : list (list Z)) (k : nat) :
  metrics_runner.confusion cm -> (k < length cm)%nat ->
  (0 <= metrics_runner.TP cm k)%Z /\ (0 <= metrics_runner.FP cm k)%Z /\
  (0 <= metrics_runner.FN cm k)%Z /\ (0 <= metrics_runner.TN cm k)%Z /\
  (metrics_runner.TP cm k + metrics_runner.FP cm k
   + metrics_runner.FN cm k + metrics_runner.TN cm k
   = metrics_runner.total cm)%Z /\
  (metrics_runner.TN cm k + metrics_runner.FP cm k
   = metrics_runner.total cm
     - fold_right Z.add 0 (metrics_runner.row cm k))%Z.
Proof.
  intros H _. destruct (counts_exact cm k H) as (Hb & -> & -> & ->).
  lia.
Qed.

Lemma cm2_confusion : metrics_runner.confusion cm2.
Proof.
  split; [|split].
  - repeat constructor.
  - repeat constructor; discriminate.
  - reflexivity.
Qed.

Lemma confusion_counts_witness :
  (0 <= metrics_runner.TP cm2 0)%Z /\ (0 <= metrics_runner.FP cm2 0)%Z /\
  (0 <= metrics_runner.FN cm2 0)%Z /\ (0 <= metrics_runner.TN cm2 0)%Z /\
  (metrics_runner.TP cm2 0 + metrics_runner.FP cm2 0
   + metrics_runner.FN cm2 0 + metrics_runner.TN cm2 0
   = metrics_runner.total cm2)%Z /\
  (metrics_runner.TN cm2 0 + metrics_runner.FP cm2 0
   = metrics_runner.total cm2
     - fold_right Z.add 0 (metrics_runner.row cm2 0))%Z.
Proof.
  apply (confusion_counts cm2 0); [exact cm2_confusion|cbn; lia].
Defined.

(** X27. The specificity of class [k] is [0.0] when every sample is in row
    [k]; otherwise it is the quotient of the floats of the two counts
    [n - r - c + t] and [n - r], for [n] samples, [r] of them in row [k], [c]
    in column [k] and [t] in both. *)
Theorem spec_k_formula (cm : list (list Z)) (k : nat) :
  metrics_runner.confusion cm -> (k < length cm)%nat ->
  let n := metrics_runner.total cm in
  let r := fold_right Z.add 0%Z (metrics_runner.row cm k) in
  let c := fold_right Z.add 0%Z (metrics_runner.column cm k) in
  let t := metrics_runner.TP cm k in
  (n = r -> metrics_runner.spec_k cm k = f0_0) /\
  (n <> r ->
   metrics_runner.spec_k cm k
   = PyFloat.div (PyFloat.of_Z (n - r - c + t)) (PyFloat.of_Z (n - r))).
Proof.
  intros H _ n r c t. destruct H as (Hsq & Hpos & Hn).
  destruct (counts_exact cm k (conj Hsq (conj Hpos Hn)))
    as (Hb & EFP & EFN & ETN).
  fold n r c t in Hb, EFP, EFN, ETN. fold n in Hn.
  unfold metrics_runner.spec_k. rewrite ETN, EFP.
  replace (n - (r + c - t) + (c - t))%Z with (n - r)%Z by lia.
  rewrite (int64_small (n - r)) by lia.
  split; intros Hr.
  - destruct (Z.gtb_spec (n - r) 0); [lia|reflexivity].
  - destruct (Z.gtb_spec (n - r) 0); [|lia].
    do 2 f_equal. lia.
Qed.

Lemma spec_k_formula_witness :
  (metrics_runner.total cm2 = fold_right Z.add 0%Z (metrics_runner.row cm2 0)
   -> metrics_runner.spec_k cm2 0 = f0_0) /\
  (metrics_runner.total cm2 <> fold_right Z.add 0%Z (metrics_runner.row cm2 0)
   -> metrics_runner.spec_k cm2 0
      = PyFloat.div
          (PyFloat.of_Z
             (metrics_runner.total cm2
              - fold_right Z.add 0%Z (metrics_runner.row cm2 0)
              - fold_right Z.add 0%Z (metrics_runner.column cm2 0)
              + metrics_runner.TP cm2 0))
          (PyFloat.of_Z
             (metrics_runner.total cm2
              - fold_right Z.add 0%Z (metrics_runner.row cm2 0)))).
Proof.
  apply (spec_k_formula cm2 0); [exact cm2_confusion|cbn; lia].
Defined.
